(** * pyipmi.sensor: device SDR retrieval and sensor-state codec

    A shallow embedding of [src/pyipmi/sensor.py] (class [Sensor]).  The
    methods run in a small state-and-exception monad over the state of the
    [Sensor] object: the transport behind [send_message], the attribute
    [max_req_len], and a log of what went over the wire. *)

From Stdlib Require Import ZArith List Lia Bool String Sorted.
From Stdlib.Strings Require Import Byte.
Import ListNotations.
Local Open Scope Z_scope.

(** ** Exceptions and results *)

(** The exceptions the module raises or lets through.  [NameError],
    [TypeError] and [AttributeError] are the interpreter's own; [TransportError] stands for
    whatever [send_message] raises. *)
Inductive exc : Type :=
| RetryError
| CompletionCodeError (cc : Z)
| DecodingError
| NameError (name : string)
| TypeError
| AttributeError (name : string)
| TransportError.

(** A call returns, raises, or is cut off by the fuel of a [while True]. *)
Inductive result (A : Type) : Type :=
| Ok (a : A)
| Raise (e : exc)
| OutOfFuel.
Arguments Ok {A} a.
Arguments Raise {A} e.
Arguments OutOfFuel {A}.

(** ** Messages

    Requests and responses are objects with named fields; one module per
    message class keeps the field names of the source. *)

Module ReserveDeviceSdrRepositoryRsp.
Record t : Type := mk { completion_code : Z; reservation_id : Z }.
End ReserveDeviceSdrRepositoryRsp.

Module GetDeviceSdrReq.
Record t : Type :=
  mk { reservation_id : Z; record_id : Z; offset : Z; length : Z }.
Definition set_reservation_id (r : t) (v : Z) : t :=
  mk v (record_id r) (offset r) (length r).
End GetDeviceSdrReq.

Module GetDeviceSdrRsp.
Record t : Type :=
  mk { completion_code : Z; next_record_id : Z; record_data : list byte }.
End GetDeviceSdrRsp.

Module GetSensorReadingReq.
Record t : Type := mk { sensor_number : Z; lun : Z }.
End GetSensorReadingReq.

Module GetSensorReadingRsp.
Record t : Type :=
  mk { completion_code : Z;
       sensor_reading : Z;
       initial_update_in_progress : Z; (* rsp.config.initial_update_in_progress *)
       states1 : option Z;
       states2 : option Z }.
End GetSensorReadingRsp.

(** The six named thresholds, used for the set mask and for the values. *)
Module Thresholds.
Record t : Type := mk { unr : Z; ucr : Z; unc : Z; lnc : Z; lcr : Z; lnr : Z }.
Definition zero : t := mk 0 0 0 0 0 0.
Definition set_unr (r : t) (v : Z) := mk v (ucr r) (unc r) (lnc r) (lcr r) (lnr r).
Definition set_ucr (r : t) (v : Z) := mk (unr r) v (unc r) (lnc r) (lcr r) (lnr r).
Definition set_unc (r : t) (v : Z) := mk (unr r) (ucr r) v (lnc r) (lcr r) (lnr r).
Definition set_lnc (r : t) (v : Z) := mk (unr r) (ucr r) (unc r) v (lcr r) (lnr r).
Definition set_lcr (r : t) (v : Z) := mk (unr r) (ucr r) (unc r) (lnc r) v (lnr r).
Definition set_lnr (r : t) (v : Z) := mk (unr r) (ucr r) (unc r) (lnc r) (lcr r) v.
End Thresholds.

Module SetSensorThresholdsReq.
Record t : Type :=
  mk { sensor_number : Z; lun : Z; set_mask : Thresholds.t; threshold : Thresholds.t }.
End SetSensorThresholdsReq.

Module SetSensorThresholdsRsp.
Record t : Type := mk { completion_code : Z }.
End SetSensorThresholdsRsp.

(** What [create_request_by_name] builds, by message name. *)
Inductive request : Type :=
| ReserveDeviceSdrRepository
| GetDeviceSdr (req : GetDeviceSdrReq.t)
| GetSensorReading (req : GetSensorReadingReq.t)
| SetSensorThresholds (req : SetSensorThresholdsReq.t).

(** The class of the response [send_message] gives for a request. *)
Definition response_of (req : request) : Type :=
  match req with
  | ReserveDeviceSdrRepository => ReserveDeviceSdrRepositoryRsp.t
  | GetDeviceSdr _ => GetDeviceSdrRsp.t
  | GetSensorReading _ => GetSensorReadingRsp.t
  | SetSensorThresholds _ => SetSensorThresholdsRsp.t
  end.

(** What the log keeps: each call of [send_message] with its outcome, and each
    [time.sleep], its delay counted in units of 100 ms. *)
Inductive event : Type :=
| Exchange (req : request) (r : exc + response_of req)
| Sleep (tenths : Z).

(** ** Byte buffers *)

Definition byte_val (b : byte) : Z := Z.of_N (Byte.to_N b).

Definition len {A : Type} (l : list A) : Z := Z.of_nat (List.length l).

(** Modelled from the spec: [ByteBuffer.pop_unsigned_int] of [pyipmi.utils] is
    not among the sources.  It takes [length] bytes off the front of the
    buffer and reads them as a little-endian integer; a buffer that is too
    short is a [DecodingError]. *)
Fixpoint pop_unsigned_int_from (i : Z) (value : Z) (buf : list byte) (length : nat)
  {struct length} : result (Z * list byte) :=
  match length with
  | O => Ok (value, buf)
  | S length' =>
      match buf with
      | [] => Raise DecodingError
      | b :: buf' =>
          pop_unsigned_int_from (i + 1)
            (Z.lor value (Z.shiftl (byte_val b) (8 * i))) buf' length'
      end
  end.

Definition pop_unsigned_int (buf : list byte) (length : nat) : result (Z * list byte) :=
  pop_unsigned_int_from 0 0 buf length.

(** The bytes [offset .. offset + length) of a record, as one read of the
    whole record would deliver them. *)
Definition slice (data : list byte) (offset length : Z) : list byte :=
  firstn (Z.to_nat length) (skipn (Z.to_nat offset) data).

(** ** Decoded records *)

Section Sdr.
(** The type-specific content of a decoded record. *)
Variable Body : Type.

Record Sdr : Type := mkSdr { body : Body; next_id : Z }.

(** The type-specific decoder behind [sdr.create_sdr]. *)
Variable decode_body : list byte -> option Body.

(** Modelled from the spec: [sdr.create_sdr] is not among the sources.  It
    decodes the assembled buffer, which fails with [DecodingError] on a
    layout it cannot read, and the decoded record carries the next record id
    it was given. *)
Definition create_sdr (data : list byte) (next_id : Z) : result Sdr :=
  match decode_body data with
  | Some b => Ok (mkSdr b next_id)
  | None => Raise DecodingError
  end.
End Sdr.
Arguments body {Body} s.
Arguments next_id {Body} s.
Arguments mkSdr {Body} body next_id.
Arguments create_sdr {Body} decode_body data next_id.

(** ** Reading the log *)

(** The [GetDeviceSdr] requests that were sent, in order. *)
Fixpoint chunk_requests (tr : list event) : list GetDeviceSdrReq.t :=
  match tr with
  | [] => []
  | Exchange (GetDeviceSdr req) _ :: tr' => req :: chunk_requests tr'
  | _ :: tr' => chunk_requests tr'
  end.

(** What one event adds to the successful chunk fetches. *)
Definition success_of (e : event) : list (GetDeviceSdrReq.t * GetDeviceSdrRsp.t) :=
  match e with
  | Exchange (GetDeviceSdr req) (inr rsp) =>
      if GetDeviceSdrRsp.completion_code rsp =? 0 then [(req, rsp)] else []
  | _ => []
  end.

(** The [GetDeviceSdr] exchanges answered with completion code 0, in order:
    these are the fetches whose data [_get_device_sdr_chunk] returns. *)
Definition successes (tr : list event) : list (GetDeviceSdrReq.t * GetDeviceSdrRsp.t) :=
  flat_map success_of tr.




(** * The [Sensor] object *)

(** What the class [Sensor] is mixed into and imports: the transport behind
    [send_message], the completion codes of [pyipmi.msgs.constants], the
    decoder behind [sdr.create_sdr] and the requests [create_request_by_name]
    builds. *)
Class Platform : Type :=
  { (** The transport: a state of its own and one answer per request. *)
    W : Type;
    send_message : forall req : request, W -> (exc + response_of req) * W;
    (** The completion codes the module branches on; their values are not
        among the sources. *)
    CC_RES_CANCELED : Z;
    CC_TIMEOUT : Z;
    CC_RESP_COULD_NOT_BE_PRV : Z;
    CC_CANT_RET_NUM_REQ_BYTES : Z;
    Body : Type;
    decode_body : list byte -> option Body;
    (** The set mask and the values of a [SetSensorThresholds] request as
        [create_request_by_name] leaves them. *)
    fresh_set_mask : Thresholds.t;
    fresh_threshold : Thresholds.t }.

Section Sensor.
Context {P : Platform}.

Record state : Type :=
  mkState { world : W;
            max_req_len : option Z; (* self.max_req_len, None until first set *)
            trace : list event }.

Definition M (A : Type) : Type := state -> result A * state.

Definition ret {A} (a : A) : M A := fun s => (Ok a, s).
Definition raise {A} (e : exc) : M A := fun s => (Raise e, s).
Definition out_of_fuel {A} : M A := fun s => (OutOfFuel, s).
Definition bind {A B} (m : M A) (k : A -> M B) : M B :=
  fun s =>
    match m s with
    | (Ok a, s') => k a s'
    | (Raise e, s') => (Raise e, s')
    | (OutOfFuel, s') => (OutOfFuel, s')
    end.
Definition lift {A} (r : result A) : M A := fun s => (r, s).

(** [try: m  except CompletionCodeError, e: handler e.cc] *)
Definition try_except_cc {A} (m : M A) (handler : Z -> M A) : M A :=
  fun s =>
    match m s with
    | (Raise (CompletionCodeError cc), s') => handler cc s'
    | other => other
    end.

Notation "x <- m ;; k" := (bind m (fun x => k))
  (at level 61, m at next level, right associativity).
Notation "' pat <- m ;; k" := (bind m (fun x => match x with pat => k end))
  (at level 61, pat pattern, m at next level, right associativity).
Notation "m ;;; k" := (bind m (fun _ => k))
  (at level 61, right associativity).

Definition log (e : event) : M unit :=
  fun s => (Ok tt, mkState (world s) (max_req_len s) (trace s ++ [e])).

(** [self.send_message(req)] *)
Definition send (req : request) : M (response_of req) :=
  fun s =>
    let (r, w) := send_message req (world s) in
    let s' := mkState w (max_req_len s) (trace s ++ [Exchange req r]) in
    match r with
    | inl e => (Raise e, s')
    | inr rsp => (Ok rsp, s')
    end.

(** [time.sleep(0.1 * tenths)] *)
Definition sleep (tenths : Z) : M unit := log (Sleep tenths).

Definition get_max_req_len : M Z :=
  fun s =>
    match max_req_len s with
    | Some v => (Ok v, s)
    | None => (Raise (AttributeError "max_req_len"), s)
    end.

Definition set_max_req_len (v : Z) : M unit :=
  fun s => (Ok tt, mkState (world s) (Some v) (trace s)).

(** Modelled from the spec: [check_completion_code] of [pyipmi.utils] is not
    among the sources.  Any completion code other than success fails with
    [CompletionCodeError] carrying the code. *)
Definition check_completion_code (cc : Z) : M unit :=
  if cc =? 0 then ret tt else raise (CompletionCodeError cc).

Definition reserve_device_sdr_repository : M Z :=
  rsp <- send ReserveDeviceSdrRepository ;;
  check_completion_code (ReserveDeviceSdrRepositoryRsp.completion_code rsp) ;;;
  ret (ReserveDeviceSdrRepositoryRsp.reservation_id rsp).

(** The [while True] of [_get_device_sdr_chunk]; [retry] is the counter as
    the iteration finds it. *)
Fixpoint get_device_sdr_chunk_loop (fuel : nat) (req : GetDeviceSdrReq.t) (retry : Z)
  : M (Z * list byte) :=
  match fuel with
  | O => out_of_fuel
  | S fuel' =>
      let retry := retry - 1 in
      if retry =? 0 then raise RetryError
      else
        rsp <- send (GetDeviceSdr req) ;;
        let cc := GetDeviceSdrRsp.completion_code rsp in
        if cc =? 0 then
          ret (GetDeviceSdrRsp.next_record_id rsp, GetDeviceSdrRsp.record_data rsp)
        else if cc =? CC_RES_CANCELED then
          reservation_id <- reserve_device_sdr_repository ;;
          sleep 1 ;;;
          get_device_sdr_chunk_loop fuel'
            (GetDeviceSdrReq.set_reservation_id req reservation_id) retry
        else if cc =? CC_TIMEOUT then
          sleep 1 ;;;
          get_device_sdr_chunk_loop fuel' req retry
        else if cc =? CC_RESP_COULD_NOT_BE_PRV then
          sleep retry ;;;
          get_device_sdr_chunk_loop fuel' req retry
        else
          check_completion_code cc ;;;
          get_device_sdr_chunk_loop fuel' req retry
  end.

(** The counter starts at 5 and the fifth iteration raises, so five
    iterations of fuel are never used up (see [get_device_sdr_chunk_loop_total]). *)
Definition _get_device_sdr_chunk (reservation_id record_id offset length : Z)
  : M (Z * list byte) :=
  get_device_sdr_chunk_loop 5
    (GetDeviceSdrReq.mk reservation_id record_id offset length) 5.

(** The [try] statement in the loop of [get_device_sdr].  [retry],
    [next_record_id] and [data] are the locals it may assign: a fetch that
    returns assigns the last two, and one that raises leaves them as they
    were and falls through to what follows the statement. *)
Definition get_device_sdr_try (reservation_id record_id offset length : Z)
  (retry : Z) (next_record_id : Z) (data : list byte) : M (Z * Z * list byte) :=
  try_except_cc
    ('(next_record_id, data) <-
       _get_device_sdr_chunk reservation_id record_id offset length ;;
     ret (retry, next_record_id, data))
    (fun cc =>
       if cc =? CC_CANT_RET_NUM_REQ_BYTES then
         m <- get_max_req_len ;;
         set_max_req_len (m - 4) ;;;
         m <- get_max_req_len ;;
         if m <=? 0 then ret (0, next_record_id, data)
         else ret (retry, next_record_id, data)
       else
         raise (NameError "Assert")).

(** The [while True] of [get_device_sdr]; [retry] is the counter as the
    iteration finds it. *)
Fixpoint get_device_sdr_loop (fuel : nat) (reservation_id record_id record_length : Z)
  (retry : Z) (next_record_id : Z) (data record_data : list byte) (offset : Z)
  : M (list byte * Z) :=
  match fuel with
  | O => out_of_fuel
  | S fuel' =>
      let retry := retry - 1 in
      if retry =? 0 then raise RetryError
      else
        length <- get_max_req_len ;;
        let length :=
          if (offset + length) >? record_length then record_length - offset
          else length in
        '(retry, next_record_id, data) <-
          get_device_sdr_try reservation_id record_id offset length
            retry next_record_id data ;;
        let record_data := record_data ++ data in
        let offset := len record_data in
        if len record_data >=? record_length then ret (record_data, next_record_id)
        else
          get_device_sdr_loop fuel' reservation_id record_id record_length
            retry next_record_id data record_data offset
  end.

Definition get_device_sdr (fuel : nat) (record_id : Z) (reservation_id : option Z)
  : M (Sdr Body) :=
  reservation_id <-
    match reservation_id with
    | None => reserve_device_sdr_repository
    | Some r => ret r
    end ;;
  '(next_record_id, data) <- _get_device_sdr_chunk reservation_id record_id 0 5 ;;
  let header := data in
  '(record_id, header) <- lift (pop_unsigned_int header 2) ;;
  '(record_version, header) <- lift (pop_unsigned_int header 1) ;;
  '(record_type, header) <- lift (pop_unsigned_int header 1) ;;
  '(record_payload_length, header) <- lift (pop_unsigned_int header 1) ;;
  let record_length := record_payload_length + 5 in
  let record_data := data in
  let offset := len record_data in
  set_max_req_len 20 ;;;
  '(record_data, next_record_id) <-
    get_device_sdr_loop fuel reservation_id record_id record_length
      20 next_record_id data record_data offset ;;
  lift (create_sdr decode_body record_data next_record_id).

(** The generator [device_sdr_entries], as the place it is suspended at:
    not yet started, at its [yield] with the locals [reservation_id] and
    [s], or finished. *)
Inductive generator : Type :=
| Created
| Suspended (reservation_id : Z) (s : Sdr Body)
| Finished.

(** One [next()] of the generator: [Some s] is a yielded record, [None]
    is [StopIteration]. *)
Definition device_sdr_entries_next (fuel : nat) (g : generator)
  : M (option (Sdr Body) * generator) :=
  match g with
  | Created =>
      reservation_id <- reserve_device_sdr_repository ;;
      let record_id := 0 in
      s <- get_device_sdr fuel record_id (Some reservation_id) ;;
      ret (Some s, Suspended reservation_id s)
  | Suspended reservation_id s =>
      if next_id s =? 0xffff then ret (None, Finished)
      else
        let record_id := next_id s in
        s <- get_device_sdr fuel record_id (Some reservation_id) ;;
        ret (Some s, Suspended reservation_id s)
  | Finished => ret (None, Finished)
  end.

(** [list(g)]: call [next()] until [StopIteration]. *)
Fixpoint list_of_generator (n : nat) (fuel : nat) (g : generator) (acc : list (Sdr Body))
  : M (list (Sdr Body)) :=
  match n with
  | O => out_of_fuel
  | S n' =>
      '(y, g) <- device_sdr_entries_next fuel g ;;
      match y with
      | None => ret acc
      | Some s => list_of_generator n' fuel g (acc ++ [s])
      end
  end.

(** [fuel] bounds both the number of records and the iterations of one
    assembly; the argument [reservation_id] is not used by the source. *)
Definition get_device_sdr_list (fuel : nat) (reservation_id : option Z)
  : M (list (Sdr Body)) :=
  list_of_generator fuel fuel Created [].

(** Python's truth value of an integer. *)
Definition truthy (v : Z) : bool := negb (v =? 0).

Definition get_sensor_reading (sensor_number lun : Z) : M (option Z * option Z) :=
  let req := GetSensorReadingReq.mk sensor_number lun in
  rsp <- send (GetSensorReading req) ;;
  check_completion_code (GetSensorReadingRsp.completion_code rsp) ;;;
  let reading := Some (GetSensorReadingRsp.sensor_reading rsp) in
  let reading :=
    if truthy (GetSensorReadingRsp.initial_update_in_progress rsp) then None
    else reading in
  let states := None in
  let states :=
    match GetSensorReadingRsp.states1 rsp with
    | Some s1 => Some s1
    | None => states
    end in
  states <-
    match GetSensorReadingRsp.states2 rsp with
    | Some s2 =>
        match states with
        | Some s => ret (Some (Z.lor s (Z.shiftl s2 8)))
        | None => raise TypeError (* None |= int *)
        end
    | None => ret states
    end ;;
  ret (reading, states).

(** The request [set_sensor_thresholds] has built when it calls
    [send_message]. *)
Definition set_sensor_thresholds_request (sensor_number lun : Z)
  (unr ucr unc lnc lcr lnr : option Z) : SetSensorThresholdsReq.t :=
  let set_mask := fresh_set_mask in
  let threshold := fresh_threshold in
  let '(set_mask, threshold) :=
    match unr with
    | Some v => (Thresholds.set_unr set_mask 1, Thresholds.set_unr threshold v)
    | None => (set_mask, threshold)
    end in
  let '(set_mask, threshold) :=
    match ucr with
    | Some v => (Thresholds.set_ucr set_mask 1, Thresholds.set_ucr threshold v)
    | None => (set_mask, threshold)
    end in
  let '(set_mask, threshold) :=
    match unc with
    | Some v => (Thresholds.set_unc set_mask 1, Thresholds.set_unc threshold v)
    | None => (set_mask, threshold)
    end in
  let '(set_mask, threshold) :=
    match lnc with
    | Some v => (Thresholds.set_lnc set_mask 1, Thresholds.set_lnc threshold v)
    | None => (set_mask, threshold)
    end in
  let '(set_mask, threshold) :=
    match lcr with
    | Some v => (Thresholds.set_lcr set_mask 1, Thresholds.set_lcr threshold v)
    | None => (set_mask, threshold)
    end in
  let '(set_mask, threshold) :=
    match lnr with
    | Some v => (Thresholds.set_lnr set_mask 1, Thresholds.set_lnr threshold v)
    | None => (set_mask, threshold)
    end in
  SetSensorThresholdsReq.mk sensor_number lun set_mask threshold.

Definition set_sensor_thresholds (sensor_number lun : Z)
  (unr ucr unc lnc lcr lnr : option Z) : M unit :=
  let req := set_sensor_thresholds_request sensor_number lun unr ucr unc lnc lcr lnr in
  rsp <- send (SetSensorThresholds req) ;;
  check_completion_code (SetSensorThresholdsRsp.completion_code rsp).

(** ** What a call leaves in the state *)

(** Two requests for the same bytes: they may differ in the reservation only. *)
Definition same_chunk (a b : GetDeviceSdrReq.t) : Prop :=
  GetDeviceSdrReq.record_id a = GetDeviceSdrReq.record_id b
  /\ GetDeviceSdrReq.offset a = GetDeviceSdrReq.offset b
  /\ GetDeviceSdrReq.length a = GetDeviceSdrReq.length b.

(** The call took [s] to [s'], adding [tr] to the log and leaving
    [max_req_len] alone. *)
Definition extends (s s' : state) (tr : list event) : Prop :=
  max_req_len s' = max_req_len s /\ trace s' = trace s ++ tr.

(** The call took [s] to [s'], adding [tr] to the log. *)
Definition logs (s s' : state) (tr : list event) : Prop :=
  trace s' = trace s ++ tr.

(** The completion codes [_get_device_sdr_chunk] answers by trying again. *)
Definition recoverable (cc : Z) : Prop :=
  cc <> 0
  /\ (cc = CC_RES_CANCELED \/ cc = CC_TIMEOUT \/ cc = CC_RESP_COULD_NOT_BE_PRV).

(** The next record id reported by the last of the successful fetches [cs],
    or [nid] if there is none. *)
Definition last_next_record_id (cs : list (GetDeviceSdrReq.t * GetDeviceSdrRsp.t))
  (nid : Z) : Z :=
  last (map (fun c => GetDeviceSdrRsp.next_record_id (snd c)) cs) nid.

(** The record id and the record length the header bytes [b0 b1 .. b4]
    announce. *)
Definition header_record_id (b0 b1 : byte) : Z :=
  Z.lor (byte_val b0) (Z.shiftl (byte_val b1) 8).

Definition header_record_length (b4 : byte) : Z := byte_val b4 + 5.

(** What the last statement of [get_device_sdr] makes of the outcome of the
    loop. *)
Definition decoded (rl : result (list byte * Z)) : result (Sdr Body) :=
  match rl with
  | Ok (record_data, next_record_id) => create_sdr decode_body record_data next_record_id
  | Raise e => Raise e
  | OutOfFuel => OutOfFuel
  end.



(** What [set_sensor_thresholds] is to do with one threshold: supplied, its
    set bit is 1 and its value the one supplied; not supplied, bit and value
    are as the fresh request has them. *)
Definition threshold_written (arg : option Z) (bit value fresh_bit fresh_value : Z)
  : Prop :=
  match arg with
  | Some v => bit = 1 /\ value = v
  | None => bit = fresh_bit /\ value = fresh_value
  end.

(** ** The log of one chunk fetch

    What the loop of [_get_device_sdr_chunk] writes to the log when it finds
    the counter at [retry], and how it ends, read off its branches. *)
Inductive chunk_trace
  : GetDeviceSdrReq.t -> Z -> list event -> result (Z * list byte) -> Prop :=
| chunk_exhausted (req : GetDeviceSdrReq.t) (retry : Z) :
    retry - 1 = 0 ->
    chunk_trace req retry [] (Raise RetryError)
| chunk_not_sent (req : GetDeviceSdrReq.t) (retry : Z) (e : exc) :
    retry - 1 <> 0 ->
    chunk_trace req retry [Exchange (GetDeviceSdr req) (inl e)] (Raise e)
| chunk_fetched (req : GetDeviceSdrReq.t) (retry : Z) (rsp : GetDeviceSdrRsp.t) :
    retry - 1 <> 0 ->
    GetDeviceSdrRsp.completion_code rsp = 0 ->
    chunk_trace req retry [Exchange (GetDeviceSdr req) (inr rsp)]
      (Ok (GetDeviceSdrRsp.next_record_id rsp, GetDeviceSdrRsp.record_data rsp))
| chunk_reserved_again (req : GetDeviceSdrReq.t) (retry : Z) (rsp : GetDeviceSdrRsp.t)
    (rr : ReserveDeviceSdrRepositoryRsp.t) (tr : list event)
    (r : result (Z * list byte)) :
    retry - 1 <> 0 ->
    GetDeviceSdrRsp.completion_code rsp <> 0 ->
    GetDeviceSdrRsp.completion_code rsp = CC_RES_CANCELED ->
    ReserveDeviceSdrRepositoryRsp.completion_code rr = 0 ->
    chunk_trace
      (GetDeviceSdrReq.set_reservation_id req
         (ReserveDeviceSdrRepositoryRsp.reservation_id rr))
      (retry - 1) tr r ->
    chunk_trace req retry
      (Exchange (GetDeviceSdr req) (inr rsp)
         :: Exchange ReserveDeviceSdrRepository (inr rr) :: Sleep 1 :: tr) r
| chunk_not_reserved (req : GetDeviceSdrReq.t) (retry : Z) (rsp : GetDeviceSdrRsp.t)
    (x : exc + ReserveDeviceSdrRepositoryRsp.t) (e : exc) :
    retry - 1 <> 0 ->
    GetDeviceSdrRsp.completion_code rsp <> 0 ->
    GetDeviceSdrRsp.completion_code rsp = CC_RES_CANCELED ->
    match x with
    | inl e' => e = e'
    | inr rr =>
        ReserveDeviceSdrRepositoryRsp.completion_code rr <> 0
        /\ e = CompletionCodeError (ReserveDeviceSdrRepositoryRsp.completion_code rr)
    end ->
    chunk_trace req retry
      [Exchange (GetDeviceSdr req) (inr rsp); Exchange ReserveDeviceSdrRepository x]
      (Raise e)
| chunk_timed_out (req : GetDeviceSdrReq.t) (retry : Z) (rsp : GetDeviceSdrRsp.t)
    (tr : list event) (r : result (Z * list byte)) :
    retry - 1 <> 0 ->
    GetDeviceSdrRsp.completion_code rsp <> 0 ->
    GetDeviceSdrRsp.completion_code rsp <> CC_RES_CANCELED ->
    GetDeviceSdrRsp.completion_code rsp = CC_TIMEOUT ->
    chunk_trace req (retry - 1) tr r ->
    chunk_trace req retry (Exchange (GetDeviceSdr req) (inr rsp) :: Sleep 1 :: tr) r
| chunk_not_provided (req : GetDeviceSdrReq.t) (retry : Z) (rsp : GetDeviceSdrRsp.t)
    (tr : list event) (r : result (Z * list byte)) :
    retry - 1 <> 0 ->
    GetDeviceSdrRsp.completion_code rsp <> 0 ->
    GetDeviceSdrRsp.completion_code rsp <> CC_RES_CANCELED ->
    GetDeviceSdrRsp.completion_code rsp <> CC_TIMEOUT ->
    GetDeviceSdrRsp.completion_code rsp = CC_RESP_COULD_NOT_BE_PRV ->
    chunk_trace req (retry - 1) tr r ->
    chunk_trace req retry
      (Exchange (GetDeviceSdr req) (inr rsp) :: Sleep (retry - 1) :: tr) r
| chunk_refused (req : GetDeviceSdrReq.t) (retry : Z) (rsp : GetDeviceSdrRsp.t) :
    retry - 1 <> 0 ->
    GetDeviceSdrRsp.completion_code rsp <> 0 ->
    GetDeviceSdrRsp.completion_code rsp <> CC_RES_CANCELED ->
    GetDeviceSdrRsp.completion_code rsp <> CC_TIMEOUT ->
    GetDeviceSdrRsp.completion_code rsp <> CC_RESP_COULD_NOT_BE_PRV ->
    chunk_trace req retry [Exchange (GetDeviceSdr req) (inr rsp)]
      (Raise (CompletionCodeError (GetDeviceSdrRsp.completion_code rsp))).

(** The delays of the [time.sleep] calls in the log, in units of 100 ms. *)
Fixpoint sleeps (tr : list event) : list Z :=
  match tr with
  | [] => []
  | Sleep t :: tr' => t :: sleeps tr'
  | Exchange _ _ :: tr' => sleeps tr'
  end.

(** How many [ReserveDeviceSdrRepository] requests were sent. *)
Fixpoint reservations (tr : list event) : nat :=
  match tr with
  | [] => O
  | Exchange ReserveDeviceSdrRepository _ :: tr' => S (reservations tr')
  | _ :: tr' => reservations tr'
  end.

(** How many [GetDeviceSdr] requests were answered "reservation canceled". *)
Fixpoint cancellations (tr : list event) : nat :=
  match tr with
  | [] => O
  | Exchange (GetDeviceSdr _) (inr rsp) :: tr' =>
      if negb (GetDeviceSdrRsp.completion_code rsp =? 0)
         && (GetDeviceSdrRsp.completion_code rsp =? CC_RES_CANCELED)
      then S (cancellations tr') else cancellations tr'
  | _ :: tr' => cancellations tr'
  end.

(** ** The buffer of an assembly, read off the log *)

(** The events that make a chunk fetch raise [CompletionCodeError]: an answer
    to the chunk request with a code that is neither success nor one the fetch
    tries again on, a reservation that is refused, and a transport that raises
    the error by itself. *)
Definition raises_cc (e : event) : bool :=
  match e with
  | Exchange (GetDeviceSdr _) (inr rsp) =>
      let cc := GetDeviceSdrRsp.completion_code rsp in
      negb (cc =? 0) && negb (cc =? CC_RES_CANCELED) && negb (cc =? CC_TIMEOUT)
      && negb (cc =? CC_RESP_COULD_NOT_BE_PRV)
  | Exchange ReserveDeviceSdrRepository (inr rr) =>
      negb (ReserveDeviceSdrRepositoryRsp.completion_code rr =? 0)
  | Exchange (GetDeviceSdr _) (inl (CompletionCodeError _)) => true
  | Exchange ReserveDeviceSdrRepository (inl (CompletionCodeError _)) => true
  | _ => false
  end.

(** The bytes the events [tr] add to the buffer, [data] being the bytes of
    the last fetch that succeeded before them: a fetch that succeeds adds its
    bytes, and a fetch that raises [CompletionCodeError] adds the bytes of the
    last fetch that succeeded once more. *)
Fixpoint assembled (tr : list event) (data : list byte) : list byte :=
  match tr with
  | [] => []
  | e :: tr' =>
      match success_of e with
      | (_, rsp) :: _ =>
          GetDeviceSdrRsp.record_data rsp
            ++ assembled tr' (GetDeviceSdrRsp.record_data rsp)
      | [] => if raises_cc e then data ++ assembled tr' data else assembled tr' data
      end
  end.

End Sensor.

(** * Two more commands

    [rearm_sensor_events] and [get_sensor_thresholds] send messages of two
    further classes. *)

Module RearmSensorEventsReq.
Record t : Type := mk { sensor_number : Z }.
End RearmSensorEventsReq.

Module RearmSensorEventsRsp.
Record t : Type := mk { completion_code : Z }.
End RearmSensorEventsRsp.

Module GetSensorThresholdsReq.
Record t : Type := mk { sensor_number : Z; lun : Z }.
End GetSensorThresholdsReq.

Module GetSensorThresholdsRsp.
Record t : Type :=
  mk { completion_code : Z; readable_mask : Thresholds.t; threshold : Thresholds.t }.
End GetSensorThresholdsRsp.

(** What [send_message] answers to these two, on the transport of the
    platform.  Their exchanges are not entered in the log, which keeps the
    messages of [request]. *)
Class SensorTransport {P : Platform} : Type :=
  { send_rearm_sensor_events :
      RearmSensorEventsReq.t -> W -> (exc + RearmSensorEventsRsp.t) * W;
    send_get_sensor_thresholds :
      GetSensorThresholdsReq.t -> W -> (exc + GetSensorThresholdsRsp.t) * W }.

(** A Python dict with string keys: one entry per key. *)
Definition dict : Type := list (string * Z).

(** [d[key]], if there is one. *)
Fixpoint getitem (d : dict) (key : string) : option Z :=
  match d with
  | [] => None
  | (k, v) :: d' => if String.eqb k key then Some v else getitem d' key
  end.

(** [d[key] = value] *)
Fixpoint setitem (d : dict) (key : string) (value : Z) : dict :=
  match d with
  | [] => [(key, value)]
  | (k, v) :: d' =>
      if String.eqb k key then (k, value) :: d' else (k, v) :: setitem d' key value
  end.

Definition keys (d : dict) : list string := map fst d.

(** The field of the six thresholds that goes by a name. *)
Definition threshold_named (t : Thresholds.t) (name : string) : option Z :=
  if String.eqb name "unr" then Some (Thresholds.unr t)
  else if String.eqb name "ucr" then Some (Thresholds.ucr t)
  else if String.eqb name "unc" then Some (Thresholds.unc t)
  else if String.eqb name "lnc" then Some (Thresholds.lnc t)
  else if String.eqb name "lcr" then Some (Thresholds.lcr t)
  else if String.eqb name "lnr" then Some (Thresholds.lnr t)
  else None.

Section SensorCommands.
Context {P : Platform} {T : SensorTransport}.

(** [self.send_message(req)] for a message of the two classes. *)
Definition send_to {A : Type} (answer : W -> (exc + A) * W) : M A :=
  fun s =>
    let (r, w) := answer (world s) in
    let s' := mkState w (max_req_len s) (trace s) in
    match r with
    | inl e => (Raise e, s')
    | inr rsp => (Ok rsp, s')
    end.

Definition rearm_sensor_events (sensor_number : Z) : M unit :=
  let req := RearmSensorEventsReq.mk sensor_number in
  bind (send_to (send_rearm_sensor_events req)) (fun rsp =>
  check_completion_code (RearmSensorEventsRsp.completion_code rsp)).

(** The dict [get_sensor_thresholds] builds from a response. *)
Definition thresholds_of (rsp : GetSensorThresholdsRsp.t) : dict :=
  let mask := GetSensorThresholdsRsp.readable_mask rsp in
  let value := GetSensorThresholdsRsp.threshold rsp in
  let thresholds := [] in
  let thresholds :=
    if truthy (Thresholds.unr mask)
    then setitem thresholds "unr" (Thresholds.unr value) else thresholds in
  let thresholds :=
    if truthy (Thresholds.ucr mask)
    then setitem thresholds "ucr" (Thresholds.ucr value) else thresholds in
  let thresholds :=
    if truthy (Thresholds.unc mask)
    then setitem thresholds "unc" (Thresholds.unc value) else thresholds in
  let thresholds :=
    if truthy (Thresholds.lnc mask)
    then setitem thresholds "lnc" (Thresholds.lnc value) else thresholds in
  let thresholds :=
    if truthy (Thresholds.lcr mask)
    then setitem thresholds "lcr" (Thresholds.lcr value) else thresholds in
  let thresholds :=
    if truthy (Thresholds.lnr mask)
    then setitem thresholds "lnr" (Thresholds.lnr value) else thresholds in
  thresholds.

Definition get_sensor_thresholds (sensor_number lun : Z) : M dict :=
  let req := GetSensorThresholdsReq.mk sensor_number lun in
  bind (send_to (send_get_sensor_thresholds req)) (fun rsp =>
  bind (check_completion_code (GetSensorThresholdsRsp.completion_code rsp)) (fun _ =>
  ret (thresholds_of rsp))).

(** The threshold the caller of [set_sensor_thresholds] supplied under a
    name, if any. *)
Definition supplied (unr ucr unc lnc lcr lnr : option Z) (name : string) : option Z :=
  if String.eqb name "unr" then unr
  else if String.eqb name "ucr" then ucr
  else if String.eqb name "unc" then unc
  else if String.eqb name "lnc" then lnc
  else if String.eqb name "lcr" then lcr
  else if String.eqb name "lnr" then lnr
  else None.

End SensorCommands.

(** * Model controllers

    Controllers to run the methods against: a table of records served
    honestly, except where [refuse] answers a [GetDeviceSdr] request with a
    completion code other than 0. *)

Module Ipmi.
(** The values the IPMI specification gives the four completion codes. *)
Definition CC_RES_CANCELED : Z := 0xc5.
Definition CC_TIMEOUT : Z := 0xc3.
Definition CC_RESP_COULD_NOT_BE_PRV : Z := 0xce.
Definition CC_CANT_RET_NUM_REQ_BYTES : Z := 0xca.
Definition CC_INV_CMD : Z := 0xc1.
Definition CC_REQ_DATA_NOT_PRESENT : Z := 0xcb.
End Ipmi.

Module Controller.
Record t : Type :=
  mk { records : list (Z * (Z * list byte)); (* record id, next record id, bytes *)
       refuse : GetDeviceSdrReq.t -> Z;
       reading : GetSensorReadingRsp.t }.

Fixpoint find_record (records : list (Z * (Z * list byte))) (record_id : Z)
  : option (Z * list byte) :=
  match records with
  | [] => None
  | (id, r) :: records' => if id =? record_id then Some r else find_record records' record_id
  end.

Definition get_device_sdr_rsp (c : t) (req : GetDeviceSdrReq.t) : GetDeviceSdrRsp.t :=
  let cc := refuse c req in
  if cc =? 0 then
    match find_record (records c) (GetDeviceSdrReq.record_id req) with
    | Some (next, data) =>
        GetDeviceSdrRsp.mk 0 next
          (slice data (GetDeviceSdrReq.offset req) (GetDeviceSdrReq.length req))
    | None => GetDeviceSdrRsp.mk Ipmi.CC_REQ_DATA_NOT_PRESENT 0xffff []
    end
  else GetDeviceSdrRsp.mk cc 0xffff [].

(** The controller keeps no state of its own. *)
Definition send_message (c : t) (req : request) (w : unit)
  : (exc + response_of req) * unit :=
  match req as q return (exc + response_of q) * unit with
  | ReserveDeviceSdrRepository => (inr (ReserveDeviceSdrRepositoryRsp.mk 0 1), tt)
  | GetDeviceSdr r => (inr (get_device_sdr_rsp c r), tt)
  | GetSensorReading _ => (inr (reading c), tt)
  | SetSensorThresholds _ => (inr (SetSensorThresholdsRsp.mk 0), tt)
  end.

Definition serve (_ : GetDeviceSdrReq.t) : Z := 0.

Definition no_reading : GetSensorReadingRsp.t :=
  GetSensorReadingRsp.mk 0 0 0 None None.

Definition to_byte (v : Z) : byte :=
  match Byte.of_N (Z.to_N (v mod 256)) with
  | Some b => b
  | None => x00
  end.

(** A record of [n] payload bytes [1 .. n] behind the header
    [id, version 0x51, type 0x01, n]. *)
Definition record (id : Z) (n : nat) : list byte :=
  [to_byte id; to_byte (Z.shiftr id 8); x51; x01; to_byte (Z.of_nat n)]
    ++ map (fun k => to_byte (Z.of_nat k)) (seq 1 n).
End Controller.

(** ** The platforms they make *)

Definition platform_of (c : Controller.t) : Platform :=
  {| W := unit;
     send_message := Controller.send_message c;
     CC_RES_CANCELED := Ipmi.CC_RES_CANCELED;
     CC_TIMEOUT := Ipmi.CC_TIMEOUT;
     CC_RESP_COULD_NOT_BE_PRV := Ipmi.CC_RESP_COULD_NOT_BE_PRV;
     CC_CANT_RET_NUM_REQ_BYTES := Ipmi.CC_CANT_RET_NUM_REQ_BYTES;
     Body := list byte;
     decode_body := Some;
     fresh_set_mask := Thresholds.zero;
     fresh_threshold := Thresholds.zero |}.

(** A [Sensor] object that has not been used yet. *)
Definition boot (c : Controller.t) : @state (platform_of c) :=
  mkState (P := platform_of c) tt None [].

(** Three records chained 0, 1, 2, of 0, 3 and 30 payload bytes, all served. *)
Definition chained : Controller.t :=
  Controller.mk
    [(0, (1, Controller.record 0 0));
     (1, (2, Controller.record 1 3));
     (2, (0xffff, Controller.record 2 30))]
    Controller.serve Controller.no_reading.

(** One record of 100 payload bytes; every request past the header is
    answered with the code [code]. *)
Definition past_header (code : Z) : Controller.t :=
  Controller.mk
    [(0, (0xffff, Controller.record 0 100))]
    (fun req => if GetDeviceSdrReq.offset req =? 0 then 0 else code)
    Controller.no_reading.

(** Every [GetDeviceSdr] request times out. *)
Definition silent : Controller.t :=
  Controller.mk
    [(0, (0xffff, Controller.record 0 100))]
    (fun _ => Ipmi.CC_TIMEOUT)
    Controller.no_reading.

(** Two records of 30 payload bytes; of record 0 no more than 8 bytes are
    returned at a time. *)
Definition picky : Controller.t :=
  Controller.mk
    [(0, (1, Controller.record 0 30)); (1, (0xffff, Controller.record 1 30))]
    (fun req =>
       if (GetDeviceSdrReq.record_id req =? 0) && (GetDeviceSdrReq.length req >? 8)
       then Ipmi.CC_CANT_RET_NUM_REQ_BYTES else 0)
    Controller.no_reading.

(** A controller whose sensor reading is [rsp]. *)
Definition reading_of (rsp : GetSensorReadingRsp.t) : Controller.t :=
  Controller.mk [] Controller.serve rsp.

(** Every [GetDeviceSdr] request is answered with the code [code]. *)
Definition answering (code : Z) : Controller.t :=
  Controller.mk [(0, (0xffff, Controller.record 0 100))] (fun _ => code)
    Controller.no_reading.

(** A record of which the header fetch brings three bytes. *)
Definition stub : Controller.t :=
  Controller.mk [(0, (0xffff, [x00; x00; x51]))] Controller.serve Controller.no_reading.

(** A record that announces ten payload bytes and has none. *)
Definition hollow : Controller.t :=
  Controller.mk [(0, (0xffff, [x00; x00; x51; x01; x0a]))] Controller.serve
    Controller.no_reading.

(** A record whose header names record 7, kept under record id 0. *)
Definition mislabelled : Controller.t :=
  Controller.mk [(0, (0xffff, Controller.record 7 30))] Controller.serve
    Controller.no_reading.

(** A record that names itself as the next one. *)
Definition ring : Controller.t :=
  Controller.mk [(0, (0, Controller.record 0 0))] Controller.serve Controller.no_reading.

(** [chained] with the repository locked: no reservation is granted. *)
Definition locked_send (req : request) (w : unit) : (exc + response_of req) * unit :=
  match req as q return (exc + response_of q) * unit with
  | ReserveDeviceSdrRepository => (inr (ReserveDeviceSdrRepositoryRsp.mk 0xd5 0), tt)
  | GetDeviceSdr r => Controller.send_message chained (GetDeviceSdr r) w
  | GetSensorReading r => Controller.send_message chained (GetSensorReading r) w
  | SetSensorThresholds r => Controller.send_message chained (SetSensorThresholds r) w
  end.

Definition locked : Platform :=
  {| W := unit;
     send_message := locked_send;
     CC_RES_CANCELED := Ipmi.CC_RES_CANCELED;
     CC_TIMEOUT := Ipmi.CC_TIMEOUT;
     CC_RESP_COULD_NOT_BE_PRV := Ipmi.CC_RESP_COULD_NOT_BE_PRV;
     CC_CANT_RET_NUM_REQ_BYTES := Ipmi.CC_CANT_RET_NUM_REQ_BYTES;
     Body := list byte;
     decode_body := Some;
     fresh_set_mask := Thresholds.zero;
     fresh_threshold := Thresholds.zero |}.

(** [chained] with a reservation that goes stale: the first reservation
    granted is 1, every later one is 2, and only requests under reservation 2
    are served; the others are answered "reservation canceled".  The state
    of the transport tells whether a reservation has been granted yet. *)
Definition renewing_send (req : request) (w : bool) : (exc + response_of req) * bool :=
  match req as q return (exc + response_of q) * bool with
  | ReserveDeviceSdrRepository =>
      (inr (ReserveDeviceSdrRepositoryRsp.mk 0 (if w then 2 else 1)), true)
  | GetDeviceSdr r =>
      (inr (if GetDeviceSdrReq.reservation_id r =? 2
            then Controller.get_device_sdr_rsp chained r
            else GetDeviceSdrRsp.mk Ipmi.CC_RES_CANCELED 0xffff []), w)
  | GetSensorReading _ => (inr Controller.no_reading, w)
  | SetSensorThresholds _ => (inr (SetSensorThresholdsRsp.mk 0), w)
  end.

Definition renewing : Platform :=
  {| W := bool;
     send_message := renewing_send;
     CC_RES_CANCELED := Ipmi.CC_RES_CANCELED;
     CC_TIMEOUT := Ipmi.CC_TIMEOUT;
     CC_RESP_COULD_NOT_BE_PRV := Ipmi.CC_RESP_COULD_NOT_BE_PRV;
     CC_CANT_RET_NUM_REQ_BYTES := Ipmi.CC_CANT_RET_NUM_REQ_BYTES;
     Body := list byte;
     decode_body := Some;
     fresh_set_mask := Thresholds.zero;
     fresh_threshold := Thresholds.zero |}.




(** A sensor whose thresholds are read as [rsp]. *)
Definition thresholds_read_as (c : Controller.t) (rsp : GetSensorThresholdsRsp.t)
  : @SensorTransport (platform_of c) :=
  {| send_rearm_sensor_events := fun _ w => (inr (RearmSensorEventsRsp.mk 0), w);
     send_get_sensor_thresholds := fun _ w => (inr rsp, w) |}.

(** * Properties *)

Section Properties.
Context {P : Platform}.

(** ** The log *)

Lemma chunk_requests_app (a b : list event) :
  chunk_requests (a ++ b) = chunk_requests a ++ chunk_requests b.
Proof.
  induction a as [|e a IH]; simpl; [reflexivity|].
  destruct e as [[| | |] x|]; simpl; rewrite IH; reflexivity.
Qed.

Lemma successes_app (a b : list event) :
  successes (a ++ b) = successes a ++ successes b.
Proof. unfold successes. apply flat_map_app. Qed.

Lemma extends_refl (s : state) : extends s s [].
Proof. split; [reflexivity|]. now rewrite app_nil_r. Qed.

Lemma extends_trans (s1 s2 s3 : state) (a b : list event) :
  extends s1 s2 a -> extends s2 s3 b -> extends s1 s3 (a ++ b).
Proof.
  intros [M1 T1] [M2 T2]. split; [congruence|].
  rewrite T2, T1, app_assoc. reflexivity.
Qed.

Lemma same_chunk_refl (a : GetDeviceSdrReq.t) : same_chunk a a.
Proof. repeat split. Qed.

Lemma same_chunk_trans (a b c : GetDeviceSdrReq.t) :
  same_chunk a b -> same_chunk b c -> same_chunk a c.
Proof. unfold same_chunk. intuition congruence. Qed.

(** ** The primitives *)

Lemma send_inv (req : request) (s s' : state) (r : result (response_of req)) :
  send req s = (r, s') ->
  exists x,
    send_message req (world s) = (x, world s')
    /\ extends s s' [Exchange req x]
    /\ r = match x with inl e => Raise e | inr rsp => Ok rsp end.
Proof.
  unfold send. destruct (send_message req (world s)) as [x w] eqn:E.
  intros H. exists x.
  destruct x as [e|rsp]; inversion H; subst; simpl; repeat split; reflexivity.
Qed.

Lemma sleep_inv (t : Z) (s s' : state) (r : result unit) :
  sleep t s = (r, s') -> r = Ok tt /\ extends s s' [Sleep t] /\ world s' = world s.
Proof. unfold sleep, log. intros H. inversion H; subst. repeat split. Qed.

Lemma check_completion_code_inv (cc : Z) (s s' : state) (r : result unit) :
  check_completion_code cc s = (r, s') ->
  s' = s /\ r = if cc =? 0 then Ok tt else Raise (CompletionCodeError cc).
Proof.
  unfold check_completion_code. destruct (cc =? 0); intros H; inversion H; auto.
Qed.

Lemma reserve_inv (s s' : state) (r : result Z) :
  reserve_device_sdr_repository s = (r, s') ->
  exists tr, extends s s' tr /\ chunk_requests tr = [] /\ successes tr = []
             /\ r <> OutOfFuel.
Proof.
  unfold reserve_device_sdr_repository, bind. intros H.
  destruct (send ReserveDeviceSdrRepository s) as [[rsp|e|] s1] eqn:Es;
    apply send_inv in Es; destruct Es as (x & _ & Hx & Hr).
  - destruct (check_completion_code (ReserveDeviceSdrRepositoryRsp.completion_code rsp) s1)
      as [[[]|e|] s2] eqn:Ec;
      apply check_completion_code_inv in Ec; destruct Ec as [-> Hc].
    + inversion H; subst. eexists; repeat split; try apply Hx; try reflexivity. discriminate.
    + inversion H; subst. eexists; repeat split; try apply Hx; try reflexivity. discriminate.
    + destruct (_ =? 0); discriminate.
  - inversion H; subst. eexists; repeat split; try apply Hx; try reflexivity. discriminate.
  - destruct x; discriminate.
Qed.

(** ** One chunk fetch *)

(** What one run of the fetch loop leaves behind: every [GetDeviceSdr] request
    asks for the same bytes, and exactly one exchange is a success when the
    loop returns, namely the one whose next record id and data it returns;
    none is when it raises. *)
Definition chunk_post (req : GetDeviceSdrReq.t) (r : result (Z * list byte))
  (tr : list event) : Prop :=
  Forall (same_chunk req) (chunk_requests tr)
  /\ match r with
     | Ok (nid, data) =>
         exists req' rsp,
           successes tr = [(req', rsp)]
           /\ same_chunk req req'
           /\ nid = GetDeviceSdrRsp.next_record_id rsp
           /\ data = GetDeviceSdrRsp.record_data rsp
     | _ => successes tr = []
     end.

Lemma chunk_post_later (req req' : GetDeviceSdrReq.t) (r : result (Z * list byte))
  (pre tr : list event) (x : exc + GetDeviceSdrRsp.t) :
  same_chunk req req' ->
  chunk_requests pre = [] -> successes pre = [] ->
  success_of (Exchange (GetDeviceSdr req) x) = [] ->
  chunk_post req' r tr ->
  chunk_post req r (([Exchange (GetDeviceSdr req) x] ++ pre) ++ tr).
Proof.
  intros Hs Hp1 Hp2 Hx [Hall Hr]. split.
  - rewrite !chunk_requests_app, Hp1. simpl. constructor; [apply same_chunk_refl|].
    eapply Forall_impl; [|exact Hall]. intros a Ha. eapply same_chunk_trans; eauto.
  - assert (E : successes (([Exchange (GetDeviceSdr req) x] ++ pre) ++ tr) = successes tr).
    { rewrite !successes_app, Hp2. unfold successes at 1. cbn [flat_map].
      rewrite Hx. reflexivity. }
    rewrite E. destruct r as [[nid data]| |]; auto.
    destruct Hr as (q & rsp & H1 & H2 & H3 & H4). exists q, rsp.
    split; [exact H1|]. split; [eapply same_chunk_trans; eauto|]. split; assumption.
Qed.

Lemma get_device_sdr_chunk_loop_spec (fuel : nat) :
  forall (req : GetDeviceSdrReq.t) (retry : Z) (s s' : state) (r : result (Z * list byte)),
    get_device_sdr_chunk_loop fuel req retry s = (r, s') ->
    exists tr, extends s s' tr /\ chunk_post req r tr.
Proof.
  induction fuel as [|fuel IH]; intros req retry s s' r H; simpl in H.
  { inversion H; subst. exists []. split; [apply extends_refl|]. split; [constructor|reflexivity]. }
  destruct (retry - 1 =? 0).
  { inversion H; subst. exists []. split; [apply extends_refl|]. split; [constructor|reflexivity]. }
  unfold bind at 1 in H.
  destruct (send (GetDeviceSdr req) s) as [[rsp|e|] s1] eqn:Es;
    apply send_inv in Es; destruct Es as (x & _ & Hx & Hr).
  2:{ inversion H; subst. exists [Exchange (GetDeviceSdr req) x]. split; [exact Hx|].
      split; [repeat constructor; apply same_chunk_refl|].
      destruct x; [reflexivity|discriminate]. }
  2:{ destruct x; discriminate. }
  destruct x as [e|rsp']; [discriminate|]. inversion Hr; subst rsp'. clear Hr.
  destruct (GetDeviceSdrRsp.completion_code rsp =? 0) eqn:Ecc.
  { inversion H; subst. exists [Exchange (GetDeviceSdr req) (inr rsp)].
    split; [exact Hx|]. split; [repeat constructor; apply same_chunk_refl|].
    exists req, rsp. unfold successes. simpl. rewrite Ecc.
    repeat split; reflexivity. }
  assert (Hno : success_of (Exchange (GetDeviceSdr req) (inr rsp)) = []).
  { simpl. rewrite Ecc. reflexivity. }
  destruct (GetDeviceSdrRsp.completion_code rsp =? CC_RES_CANCELED).
  { unfold bind at 1 in H.
    destruct (reserve_device_sdr_repository s1) as [[v|e|] s2] eqn:Ev;
      apply reserve_inv in Ev; destruct Ev as (t2 & Ht2 & Hq2 & Hs2 & Hnf).
    - unfold bind at 1 in H.
      destruct (sleep 1 s2) as [r3 s3] eqn:E3.
      apply sleep_inv in E3. destruct E3 as (-> & Ht3 & _).
      apply IH in H. destruct H as (tr & Htr & Hpost).
      exists (([Exchange (GetDeviceSdr req) (inr rsp)] ++ (t2 ++ [Sleep 1])) ++ tr).
      split.
      + eapply extends_trans; [|exact Htr].
        eapply extends_trans; [exact Hx|]. eapply extends_trans; eauto.
      + eapply chunk_post_later; eauto.
        * repeat split.
        * rewrite chunk_requests_app, Hq2. reflexivity.
        * rewrite successes_app, Hs2. reflexivity.
    - inversion H; subst.
      exists ([Exchange (GetDeviceSdr req) (inr rsp)] ++ t2). split.
      + eapply extends_trans; eauto.
      + rewrite <- (app_nil_r (_ ++ t2)).
        eapply chunk_post_later with (req' := req) (r := Raise e) (tr := []); eauto.
        * apply same_chunk_refl.
        * split; [constructor|reflexivity].
    - congruence. }
  destruct (GetDeviceSdrRsp.completion_code rsp =? CC_TIMEOUT).
  { unfold bind at 1 in H.
    destruct (sleep 1 s1) as [r3 s3] eqn:E3.
    apply sleep_inv in E3. destruct E3 as (-> & Ht3 & _).
    apply IH in H. destruct H as (tr & Htr & Hpost).
    exists (([Exchange (GetDeviceSdr req) (inr rsp)] ++ [Sleep 1]) ++ tr). split.
    - eapply extends_trans; [|exact Htr]. eapply extends_trans; eauto.
    - eapply chunk_post_later; eauto. apply same_chunk_refl. }
  destruct (GetDeviceSdrRsp.completion_code rsp =? CC_RESP_COULD_NOT_BE_PRV).
  { unfold bind at 1 in H.
    destruct (sleep (retry - 1) s1) as [r3 s3] eqn:E3.
    apply sleep_inv in E3. destruct E3 as (-> & Ht3 & _).
    apply IH in H. destruct H as (tr & Htr & Hpost).
    exists (([Exchange (GetDeviceSdr req) (inr rsp)] ++ [Sleep (retry - 1)]) ++ tr). split.
    - eapply extends_trans; [|exact Htr]. eapply extends_trans; eauto.
    - eapply chunk_post_later; eauto. apply same_chunk_refl. }
  unfold bind at 1 in H.
  destruct (check_completion_code (GetDeviceSdrRsp.completion_code rsp) s1)
    as [r3 s3] eqn:E3.
  apply check_completion_code_inv in E3. destruct E3 as [-> ->]. rewrite Ecc in H.
  inversion H; subst.
  exists [Exchange (GetDeviceSdr req) (inr rsp)]. split; [exact Hx|].
  split; [repeat constructor; apply same_chunk_refl|].
  unfold successes. simpl. rewrite Ecc. reflexivity.
Qed.

Lemma send_not_out_of_fuel (req : request) (s : state) :
  fst (send req s) <> OutOfFuel.
Proof.
  unfold send. destruct (send_message req (world s)) as [[e|rsp] w]; simpl; discriminate.
Qed.

(** With the counter between 1 and the fuel, the loop ends by itself. *)
Lemma get_device_sdr_chunk_loop_total (fuel : nat) :
  forall (req : GetDeviceSdrReq.t) (retry : Z) (s : state),
    1 <= retry <= Z.of_nat fuel ->
    fst (get_device_sdr_chunk_loop fuel req retry s) <> OutOfFuel.
Proof.
  induction fuel as [|fuel IH]; intros req retry s Hr; [lia|].
  cbn [get_device_sdr_chunk_loop].
  destruct (retry - 1 =? 0) eqn:E; [simpl; discriminate|].
  apply Z.eqb_neq in E. assert (Hr' : 1 <= retry - 1 <= Z.of_nat fuel) by lia.
  unfold bind at 1.
  pose proof (send_not_out_of_fuel (GetDeviceSdr req) s) as Hs.
  destruct (send (GetDeviceSdr req) s) as [[rsp|e|] s1]; simpl in Hs;
    [|simpl; discriminate|congruence].
  destruct (_ =? 0); [simpl; discriminate|].
  destruct (_ =? CC_RES_CANCELED).
  { unfold bind at 1.
    destruct (reserve_device_sdr_repository s1) as [[v|e|] s2] eqn:Ev;
      [|simpl; discriminate|].
    - unfold bind at 1, sleep, log. apply IH, Hr'.
    - apply reserve_inv in Ev. destruct Ev as (? & _ & _ & _ & Hnf). congruence. }
  destruct (_ =? CC_TIMEOUT); [unfold bind at 1, sleep, log; apply IH, Hr'|].
  destruct (_ =? CC_RESP_COULD_NOT_BE_PRV); [unfold bind at 1, sleep, log; apply IH, Hr'|].
  unfold bind at 1, check_completion_code.
  destruct (_ =? 0); [apply IH, Hr'|simpl; discriminate].
Qed.

(** An iteration that does not raise [RetryError] sends the request first. *)
Lemma get_device_sdr_chunk_loop_first (fuel : nat) (req : GetDeviceSdrReq.t) (retry : Z)
  (s s' : state) (r : result (Z * list byte)) :
  retry - 1 <> 0 ->
  get_device_sdr_chunk_loop (S fuel) req retry s = (r, s') ->
  exists x tr, trace s' = trace s ++ Exchange (GetDeviceSdr req) x :: tr.
Proof.
  intros Hr H. cbn [get_device_sdr_chunk_loop] in H.
  apply Z.eqb_neq in Hr. rewrite Hr in H. unfold bind at 1 in H.
  destruct (send (GetDeviceSdr req) s) as [r1 s1] eqn:Es.
  apply send_inv in Es. destruct Es as (x & _ & [_ Hx] & Hr1).
  exists x.
  assert (Hk : forall (k : M (Z * list byte)),
             k s1 = (r, s') -> (exists t, extends s1 s' t) ->
             exists tr, trace s' = trace s ++ Exchange (GetDeviceSdr req) x :: tr).
  { intros k _ (t & _ & Ht). exists t. rewrite Ht, Hx, <- app_assoc. reflexivity. }
  destruct r1 as [rsp|e|].
  - eapply Hk; [exact H|].
    clear Hk Hx Hr1 Hr.
    destruct (GetDeviceSdrRsp.completion_code rsp =? 0) eqn:Ecc.
    { inversion H; subst. exists []. apply extends_refl. }
    destruct (_ =? CC_RES_CANCELED).
    { unfold bind at 1 in H.
      destruct (reserve_device_sdr_repository s1) as [[v|e|] s2] eqn:Ev;
        apply reserve_inv in Ev; destruct Ev as (t2 & Ht2 & _).
      - unfold bind at 1 in H. destruct (sleep 1 s2) as [r3 s3] eqn:E3.
        apply sleep_inv in E3. destruct E3 as (-> & Ht3 & _).
        apply get_device_sdr_chunk_loop_spec in H. destruct H as (t & Ht & _).
        eexists. eapply extends_trans; [|exact Ht]. eapply extends_trans; eauto.
      - inversion H; subst. eauto.
      - inversion H; subst. eauto. }
    destruct (_ =? CC_TIMEOUT).
    { unfold bind at 1 in H. destruct (sleep 1 s1) as [r3 s3] eqn:E3.
      apply sleep_inv in E3. destruct E3 as (-> & Ht3 & _).
      apply get_device_sdr_chunk_loop_spec in H. destruct H as (t & Ht & _).
      eexists. eapply extends_trans; eauto. }
    destruct (_ =? CC_RESP_COULD_NOT_BE_PRV).
    { unfold bind at 1 in H. destruct (sleep (retry - 1) s1) as [r3 s3] eqn:E3.
      apply sleep_inv in E3. destruct E3 as (-> & Ht3 & _).
      apply get_device_sdr_chunk_loop_spec in H. destruct H as (t & Ht & _).
      eexists. eapply extends_trans; eauto. }
    unfold bind at 1 in H.
    destruct (check_completion_code (GetDeviceSdrRsp.completion_code rsp) s1)
      as [r3 s3] eqn:E3.
    apply check_completion_code_inv in E3. destruct E3 as [-> ->].
    rewrite Ecc in H. inversion H; subst. exists []. apply extends_refl.
  - inversion H; subst. exists []. rewrite Hx. reflexivity.
  - inversion H; subst. exists []. rewrite Hx. reflexivity.
Qed.

(** The fetch as the methods call it: it ends by itself, its first act is
    to send the request it was asked for, and [chunk_post] holds. *)
Lemma get_device_sdr_chunk_spec (reservation_id record_id offset length : Z)
  (s s' : state) (r : result (Z * list byte)) :
  _get_device_sdr_chunk reservation_id record_id offset length s = (r, s') ->
  let req := GetDeviceSdrReq.mk reservation_id record_id offset length in
  exists x tr,
    extends s s' (Exchange (GetDeviceSdr req) x :: tr)
    /\ chunk_post req r (Exchange (GetDeviceSdr req) x :: tr)
    /\ r <> OutOfFuel.
Proof.
  intros H req. unfold _get_device_sdr_chunk in H. fold req in H.
  pose proof (get_device_sdr_chunk_loop_total 5 req 5 s ltac:(lia)) as Htot.
  rewrite H in Htot. simpl in Htot.
  destruct (get_device_sdr_chunk_loop_first 4 req 5 s s' r ltac:(lia) H) as (x & tr & Htr).
  destruct (get_device_sdr_chunk_loop_spec 5 req 5 s s' r H) as (tr' & [Hm Ht'] & Hpost).
  assert (tr' = Exchange (GetDeviceSdr req) x :: tr).
  { rewrite Htr in Ht'. apply app_inv_head in Ht'. congruence. }
  subst tr'. exists x, tr.
  split; [split; assumption|]. split; [exact Hpost|exact Htot].
Qed.

(** ** The retry budget of one chunk fetch *)

Section RetryBudget.
(** Every [GetDeviceSdr] request is answered with a recoverable code ... *)
Hypothesis always_recoverable :
  forall (req : GetDeviceSdrReq.t) (w : W),
  exists rsp w',
    send_message (GetDeviceSdr req) w = (inr rsp, w')
    /\ recoverable (GetDeviceSdrRsp.completion_code rsp).
(** ... and a reservation is granted whenever one is asked for. *)
Hypothesis reservation_granted :
  forall w : W,
  exists rsp w',
    send_message ReserveDeviceSdrRepository w = (inr rsp, w')
    /\ ReserveDeviceSdrRepositoryRsp.completion_code rsp = 0.

Lemma reserve_granted (s : state) :
  exists v s' x,
    reserve_device_sdr_repository s = (Ok v, s')
    /\ extends s s' [Exchange ReserveDeviceSdrRepository x].
Proof.
  destruct (reservation_granted (world s)) as (rsp & w' & E & Hcc).
  unfold reserve_device_sdr_repository, bind, send. rewrite E.
  unfold check_completion_code. rewrite Hcc. simpl.
  eexists _, _, _. split; [reflexivity|]. split; reflexivity.
Qed.

Lemma get_device_sdr_chunk_loop_exhausts (fuel : nat) :
  forall (req : GetDeviceSdrReq.t) (retry : Z) (s : state),
    1 <= retry <= Z.of_nat fuel ->
    exists s' tr,
      get_device_sdr_chunk_loop fuel req retry s = (Raise RetryError, s')
      /\ extends s s' tr
      /\ len (chunk_requests tr) = retry - 1.
Proof.
  induction fuel as [|fuel IH]; intros req retry s Hr; [lia|].
  cbn [get_device_sdr_chunk_loop].
  destruct (retry - 1 =? 0) eqn:E.
  { apply Z.eqb_eq in E. exists s, []. split; [reflexivity|].
    split; [apply extends_refl|]. unfold len. simpl. lia. }
  apply Z.eqb_neq in E. assert (Hr' : 1 <= retry - 1 <= Z.of_nat fuel) by lia.
  destruct (always_recoverable req (world s)) as (rsp & w' & Es & Hnz & Hcc).
  unfold bind at 1. unfold send. rewrite Es.
  set (s1 := mkState w' (max_req_len s) (trace s ++ [Exchange (GetDeviceSdr req) (inr rsp)])).
  assert (H1 : extends s s1 [Exchange (GetDeviceSdr req) (inr rsp)]) by (split; reflexivity).
  apply Z.eqb_neq in Hnz. rewrite Hnz.
  assert (Hcount : forall (pre tr : list event),
             chunk_requests pre = [] ->
             len (chunk_requests tr) = retry - 1 - 1 ->
             len (chunk_requests (([Exchange (GetDeviceSdr req) (inr rsp)] ++ pre) ++ tr))
             = retry - 1).
  { intros pre tr Hp Ht. rewrite !chunk_requests_app, Hp. unfold len in *. simpl.
    lia. }
  destruct (GetDeviceSdrRsp.completion_code rsp =? CC_RES_CANCELED) eqn:E1.
  { destruct (reserve_granted s1) as (v & s2 & x & Ev & H2).
    unfold bind at 1. rewrite Ev. unfold bind at 1.
    destruct (sleep 1 s2) as [r3 s3] eqn:E3.
    apply sleep_inv in E3. destruct E3 as (-> & H3 & _).
    destruct (IH (GetDeviceSdrReq.set_reservation_id req v) (retry - 1) s3 Hr')
      as (s' & tr & Hrun & Htr & Hn).
    exists s', (([Exchange (GetDeviceSdr req) (inr rsp)]
                   ++ ([Exchange ReserveDeviceSdrRepository x] ++ [Sleep 1])) ++ tr).
    split; [exact Hrun|]. split.
    - eapply extends_trans; [|exact Htr]. eapply extends_trans; [exact H1|].
      eapply extends_trans; eauto.
    - apply Hcount; [reflexivity|exact Hn]. }
  destruct (GetDeviceSdrRsp.completion_code rsp =? CC_TIMEOUT) eqn:E2.
  { unfold bind at 1. destruct (sleep 1 s1) as [r3 s3] eqn:E3.
    apply sleep_inv in E3. destruct E3 as (-> & H3 & _).
    destruct (IH req (retry - 1) s3 Hr') as (s' & tr & Hrun & Htr & Hn).
    exists s', (([Exchange (GetDeviceSdr req) (inr rsp)] ++ [Sleep 1]) ++ tr).
    split; [exact Hrun|]. split.
    - eapply extends_trans; [|exact Htr]. eapply extends_trans; eauto.
    - apply Hcount; [reflexivity|exact Hn]. }
  destruct (GetDeviceSdrRsp.completion_code rsp =? CC_RESP_COULD_NOT_BE_PRV) eqn:E4.
  { unfold bind at 1. destruct (sleep (retry - 1) s1) as [r3 s3] eqn:E3.
    apply sleep_inv in E3. destruct E3 as (-> & H3 & _).
    destruct (IH req (retry - 1) s3 Hr') as (s' & tr & Hrun & Htr & Hn).
    exists s', (([Exchange (GetDeviceSdr req) (inr rsp)] ++ [Sleep (retry - 1)]) ++ tr).
    split; [exact Hrun|]. split.
    - eapply extends_trans; [|exact Htr]. eapply extends_trans; eauto.
    - apply Hcount; [reflexivity|exact Hn]. }
  apply Z.eqb_neq in E1, E2, E4. tauto.
Qed.

(** C3.  When every [GetDeviceSdr] request of a chunk fetch is answered with
    a recoverable completion code other than success (the reservation being
    granted anew whenever the code asks for one), [_get_device_sdr_chunk]
    raises [RetryError].  It has then sent four [GetDeviceSdr] requests, so no
    more than five.  The budget belongs to the call: a second fetch started
    where the first one ended runs through a budget of its own in the same
    way. *)
Theorem get_device_sdr_chunk_retry_budget
  (reservation_id record_id offset length : Z) (s : state) :
  exists s1 tr1 s2 tr2,
    _get_device_sdr_chunk reservation_id record_id offset length s
    = (Raise RetryError, s1)
    /\ logs s s1 tr1
    /\ List.length (chunk_requests tr1) = 4%nat
    /\ (List.length (chunk_requests tr1) <= 5)%nat
    /\ _get_device_sdr_chunk reservation_id record_id offset length s1
       = (Raise RetryError, s2)
    /\ logs s1 s2 tr2
    /\ List.length (chunk_requests tr2) = 4%nat
    /\ (List.length (chunk_requests tr2) <= 5)%nat.
Proof.
  unfold _get_device_sdr_chunk.
  set (req := GetDeviceSdrReq.mk reservation_id record_id offset length).
  destruct (get_device_sdr_chunk_loop_exhausts 5 req 5 s ltac:(lia))
    as (s1 & tr1 & R1 & [_ T1] & N1).
  destruct (get_device_sdr_chunk_loop_exhausts 5 req 5 s1 ltac:(lia))
    as (s2 & tr2 & R2 & [_ T2] & N2).
  unfold len in N1, N2.
  exists s1, tr1, s2, tr2. repeat split; try assumption; lia.
Qed.

End RetryBudget.

(** ** The assembly loop *)

Lemma last_cons_default {A : Type} (l : list A) :
  forall x d : A, last (x :: l) d = last l x.
Proof.
  induction l as [|y l IH]; intros x d; [reflexivity|].
  change (last (x :: y :: l) d) with (last (y :: l) d).
  rewrite !IH. reflexivity.
Qed.

(** The three ways the [try] statement ends: the fetch returned; it raised
    "cannot return requested number of bytes" and the cap went down by 4;
    something else was raised and leaves the method. *)
Lemma get_device_sdr_try_spec (reservation_id record_id offset length : Z)
  (retry nid : Z) (data : list byte) (s s' : state) (r : result (Z * Z * list byte))
  (m : Z) :
  max_req_len s = Some m ->
  get_device_sdr_try reservation_id record_id offset length retry nid data s = (r, s') ->
  let req := GetDeviceSdrReq.mk reservation_id record_id offset length in
  exists x tr',
    let tr := Exchange (GetDeviceSdr req) x :: tr' in
    logs s s' tr
    /\ Forall (same_chunk req) (chunk_requests tr)
    /\ ((exists q rsp,
           r = Ok (retry, GetDeviceSdrRsp.next_record_id rsp,
                   GetDeviceSdrRsp.record_data rsp)
           /\ successes tr = [(q, rsp)] /\ same_chunk req q
           /\ max_req_len s' = Some m)
        \/ (r = Ok ((if m - 4 <=? 0 then 0 else retry), nid, data)
            /\ successes tr = [] /\ max_req_len s' = Some (m - 4))
        \/ (exists e, r = Raise e /\ successes tr = [] /\ max_req_len s' = Some m)).
Proof.
  intros Hm H req. unfold get_device_sdr_try, try_except_cc in H.
  unfold bind at 1 in H.
  destruct (_get_device_sdr_chunk reservation_id record_id offset length s)
    as [rc s1] eqn:Ec.
  apply get_device_sdr_chunk_spec in Ec. fold req in Ec.
  destruct Ec as (x & tr' & [Hm1 Ht] & [Hall Hpost] & Hnf).
  exists x, tr'. cbv zeta. rewrite Hm in Hm1.
  destruct rc as [[n1 d1]|e|]; [| |congruence].
  - inversion H; subst. split; [exact Ht|]. split; [exact Hall|]. left.
    destruct Hpost as (q & rsp & Hs & Hq & -> & ->). exists q, rsp. auto.
  - destruct e as [|cc| | | | |];
      try (inversion H; subst; split; [exact Ht|]; split; [exact Hall|];
           right; right; eexists; auto).
    destruct (cc =? CC_CANT_RET_NUM_REQ_BYTES).
    + unfold bind, get_max_req_len, set_max_req_len in H. rewrite Hm1 in H. simpl in H.
      destruct (m - 4 <=? 0); inversion H; subst; simpl;
        (split; [exact Ht|]; split; [exact Hall|]; right; left; auto).
    + inversion H; subst. split; [exact Ht|]. split; [exact Hall|].
      right; right; eexists; auto.
Qed.

(** A fetch that fails with "cannot return requested number of bytes" takes
    4 off the cap, and sets the counter to 0 once the cap is 0 or less; the
    locals [next_record_id] and [data] stay as the fetch before left them. *)
Lemma get_device_sdr_try_shrinks (reservation_id record_id offset length : Z)
  (retry nid : Z) (data : list byte) (s s1 : state) (m : Z) :
  max_req_len s = Some m ->
  _get_device_sdr_chunk reservation_id record_id offset length s
  = (Raise (CompletionCodeError CC_CANT_RET_NUM_REQ_BYTES), s1) ->
  get_device_sdr_try reservation_id record_id offset length retry nid data s
  = (Ok ((if m - 4 <=? 0 then 0 else retry), nid, data),
     mkState (world s1) (Some (m - 4)) (trace s1)).
Proof.
  intros Hm Hc. pose proof Hc as Hc'. apply get_device_sdr_chunk_spec in Hc'.
  destruct Hc' as (x & tr & [Hm1 _] & _). rewrite Hm in Hm1.
  unfold get_device_sdr_try, try_except_cc. unfold bind at 1. rewrite Hc.
  rewrite Z.eqb_refl. unfold bind, get_max_req_len, set_max_req_len. rewrite Hm1.
  cbn. destruct (m - 4 <=? 0); reflexivity.
Qed.

(** A fetch that fails with any other completion code ends in the
    [NameError] of the name [Assert]. *)
Lemma get_device_sdr_try_other_code (reservation_id record_id offset length : Z)
  (retry nid : Z) (data : list byte) (s s1 : state) (cc : Z) :
  cc <> CC_CANT_RET_NUM_REQ_BYTES ->
  _get_device_sdr_chunk reservation_id record_id offset length s
  = (Raise (CompletionCodeError cc), s1) ->
  get_device_sdr_try reservation_id record_id offset length retry nid data s
  = (Raise (NameError "Assert"), s1).
Proof.
  intros Hcc Hc. unfold get_device_sdr_try, try_except_cc. unfold bind at 1.
  rewrite Hc. apply Z.eqb_neq in Hcc. rewrite Hcc. reflexivity.
Qed.

(** What the loop leaves behind, whatever the controller does: the cap only
    goes down, and the next record id the loop returns is the one reported by
    the last successful fetch of the loop, or the one it started with when no
    fetch of the loop succeeded. *)
Lemma get_device_sdr_loop_spec (fuel : nat) :
  forall (reservation_id record_id record_length retry nid : Z)
         (data record_data : list byte) (offset : Z) (s s' : state)
         (r : result (list byte * Z)) (m : Z),
    max_req_len s = Some m ->
    get_device_sdr_loop fuel reservation_id record_id record_length
      retry nid data record_data offset s = (r, s') ->
    exists tr m',
      logs s s' tr
      /\ max_req_len s' = Some m' /\ m' <= m
      /\ forall buf nid', r = Ok (buf, nid') ->
                         nid' = last_next_record_id (successes tr) nid.
Proof.
  induction fuel as [|fuel IH];
    intros rsv rid L retry nid data buf off s s' r m Hm H; cbn [get_device_sdr_loop] in H.
  { inversion H; subst. exists [], m. unfold logs. rewrite app_nil_r.
    repeat split; auto; try lia. discriminate. }
  destruct (retry - 1 =? 0).
  { inversion H; subst. exists [], m. unfold logs. rewrite app_nil_r.
    repeat split; auto; try lia. discriminate. }
  unfold bind at 1 in H. unfold get_max_req_len at 1 in H. rewrite Hm in H.
  unfold bind at 1 in H.
  match type of H with
  | context [get_device_sdr_try ?a ?b ?c ?d ?e ?f ?g s] =>
      destruct (get_device_sdr_try a b c d e f g s) as [rt s1] eqn:Et;
      apply (get_device_sdr_try_spec _ _ _ _ _ _ _ _ _ _ m Hm) in Et
  end.
  destruct Et as (x & tr' & Ht & _ & Hcase). cbv zeta in Ht, Hcase.
  set (tr1 := Exchange _ x :: tr') in *.
  assert (Hfin : forall (retry' nid1 : Z) (data1 : list byte) (m1 : Z),
             rt = Ok (retry', nid1, data1) ->
             max_req_len s1 = Some m1 -> m1 <= m ->
             nid1 = last_next_record_id (successes tr1) nid ->
             exists tr m',
               logs s s' tr /\ max_req_len s' = Some m' /\ m' <= m
               /\ forall buf' nid', r = Ok (buf', nid') ->
                                   nid' = last_next_record_id (successes tr) nid).
  { intros retry' nid1 data1 m1 -> Hm1 Hle Hn.
    destruct (len (buf ++ data1) >=? L).
    - inversion H; subst. exists tr1, m1. repeat split; auto.
      intros buf' nid' E. inversion E; subst. reflexivity.
    - apply (IH _ _ _ _ _ _ _ _ _ _ _ m1 Hm1) in H.
      destruct H as (tr2 & m2 & Ht2 & Hm2 & Hle2 & Hn2).
      exists (tr1 ++ tr2), m2. split.
      { unfold logs in *. rewrite Ht2, Ht, app_assoc. reflexivity. }
      split; [exact Hm2|]. split; [lia|].
      intros buf' nid' E. rewrite (Hn2 _ _ E), Hn.
      unfold last_next_record_id. rewrite successes_app, map_app.
      clear. generalize (map (fun c => GetDeviceSdrRsp.next_record_id (snd c)) (successes tr2)).
      generalize (map (fun c => GetDeviceSdrRsp.next_record_id (snd c)) (successes tr1)).
      intros l1 l2. revert nid. induction l1 as [|a l1 IHl]; intros nid; [reflexivity|].
      cbn [app]. rewrite !last_cons_default. apply IHl. }
  destruct Hcase as [(q & rsp & -> & Hs & _ & Hm1)|[(-> & Hs & Hm1)|(e & -> & Hs & Hm1)]].
  - eapply Hfin; eauto; [lia|]. rewrite Hs. reflexivity.
  - eapply Hfin; eauto; [lia|]. rewrite Hs. reflexivity.
  - inversion H; subst. exists tr1, m. repeat split; auto; try lia. discriminate.
Qed.

(** ** One record *)

Lemma pop_unsigned_int_header (b0 b1 b2 b3 b4 : byte) (rest : list byte) :
  pop_unsigned_int (b0 :: b1 :: b2 :: b3 :: b4 :: rest) 2
  = Ok (header_record_id b0 b1, b2 :: b3 :: b4 :: rest)
  /\ pop_unsigned_int (b4 :: rest) 1 = Ok (byte_val b4, rest).
Proof.
  unfold pop_unsigned_int, header_record_id. cbn [pop_unsigned_int_from].
  change (8 * 0) with 0. change (8 * (0 + 1)) with 8.
  rewrite !Z.shiftl_0_r, !Z.lor_0_l. split; reflexivity.
Qed.

(** The stages of a call of [get_device_sdr]: it raises before any fetch has
    succeeded; or the header that was fetched is too short to parse; or it
    enters its loop, with the cap set to 20. *)
Lemma get_device_sdr_inv (fuel : nat) (record_id : Z) (reservation_id : option Z)
  (s s' : state) (r : result (Sdr Body)) :
  get_device_sdr fuel record_id reservation_id s = (r, s') ->
  (exists e tr, r = Raise e /\ extends s s' tr /\ successes tr = []
               /\ Forall (fun q => GetDeviceSdrReq.record_id q = record_id)
                    (chunk_requests tr))
  \/ (exists tr, r = Raise DecodingError /\ extends s s' tr
                /\ Forall (fun q => GetDeviceSdrReq.record_id q = record_id)
                     (chunk_requests tr))
  \/ exists rsv s0 tr0 nid b0 b1 b2 b3 b4 rest s1 x tr1 q0 r0 rl,
      let data := b0 :: b1 :: b2 :: b3 :: b4 :: rest in
      let hdr := GetDeviceSdrReq.mk rsv record_id 0 5 in
      match reservation_id with
      | None => reserve_device_sdr_repository
      | Some v => ret v
      end s = (Ok rsv, s0)
      /\ extends s s0 tr0 /\ successes tr0 = [] /\ chunk_requests tr0 = []
      /\ _get_device_sdr_chunk rsv record_id 0 5 s0 = (Ok (nid, data), s1)
      /\ extends s0 s1 (Exchange (GetDeviceSdr hdr) x :: tr1)
      /\ successes (Exchange (GetDeviceSdr hdr) x :: tr1) = [(q0, r0)]
      /\ same_chunk hdr q0
      /\ nid = GetDeviceSdrRsp.next_record_id r0
      /\ data = GetDeviceSdrRsp.record_data r0
      /\ get_device_sdr_loop fuel rsv (header_record_id b0 b1) (header_record_length b4)
           20 nid data data (len data) (mkState (world s1) (Some 20) (trace s1))
         = (rl, s')
      /\ r = decoded rl
      /\ Forall (same_chunk hdr) (chunk_requests (Exchange (GetDeviceSdr hdr) x :: tr1)).
Proof.
  unfold get_device_sdr. intros H. unfold bind at 1 in H.
  destruct (match reservation_id with
            | None => reserve_device_sdr_repository
            | Some v => ret v
            end s) as [ra s0] eqn:Ea.
  assert (Ha : exists tr0, extends s s0 tr0 /\ successes tr0 = []
                           /\ chunk_requests tr0 = [] /\ ra <> OutOfFuel).
  { destruct reservation_id as [v|].
    - inversion Ea; subst. exists []. split; [apply extends_refl|].
      repeat split; auto. discriminate.
    - apply reserve_inv in Ea. destruct Ea as (t & ? & ? & ? & ?). exists t. auto. }
  destruct Ha as (tr0 & H0 & Hs0 & Hq0 & Hnf0).
  destruct ra as [rsv|e|]; [| |congruence].
  2:{ inversion H; subst. left. exists e, tr0. rewrite Hq0. auto. }
  unfold bind at 1 in H.
  destruct (_get_device_sdr_chunk rsv record_id 0 5 s0) as [rc s1] eqn:Ec.
  pose proof Ec as Ec'. apply get_device_sdr_chunk_spec in Ec'.
  destruct Ec' as (x & tr1 & H1 & [Hall Hpost] & Hnf).
  assert (Hids : Forall (fun q => GetDeviceSdrReq.record_id q = record_id)
                   (chunk_requests (tr0 ++ Exchange
                      (GetDeviceSdr (GetDeviceSdrReq.mk rsv record_id 0 5)) x :: tr1))).
  { rewrite chunk_requests_app, Hq0. cbn [app].
    eapply Forall_impl; [|exact Hall]. intros q (Hrid & _). cbn in Hrid. congruence. }
  destruct rc as [[nid data]|e|]; [| |congruence].
  2:{ inversion H; subst. left. exists e, (tr0 ++ Exchange _ x :: tr1).
      split; [reflexivity|]. split; [eapply extends_trans; eauto|].
      split; [|exact Hids].
      rewrite successes_app, Hs0, Hpost. reflexivity. }
  destruct Hpost as (q0 & r0 & Hs1 & Hq & Hn & Hd).
  assert (Hshort : (Raise DecodingError, s1) = (r, s') ->
                   exists tr, r = Raise DecodingError /\ extends s s' tr
                     /\ Forall (fun q => GetDeviceSdrReq.record_id q = record_id)
                          (chunk_requests tr)).
  { intros E. inversion E; subst. eexists. split; [reflexivity|].
    split; [eapply extends_trans; eauto|exact Hids]. }
  destruct data as [|b0 [|b1 [|b2 [|b3 [|b4 rest]]]]];
    try (right; left; apply Hshort; exact H).
  right; right. clear Hshort Hids.
  destruct (pop_unsigned_int_header b0 b1 b2 b3 b4 rest) as [P2 P1].
  unfold bind at 1, lift at 1 in H. rewrite P2 in H.
  unfold bind at 1, lift at 1 in H.
  change (pop_unsigned_int (b2 :: b3 :: b4 :: rest) 1)
    with (Ok (Z.lor 0 (Z.shiftl (byte_val b2) (8 * 0)), b3 :: b4 :: rest)) in H.
  cbv iota in H.
  unfold bind at 1, lift at 1 in H.
  change (pop_unsigned_int (b3 :: b4 :: rest) 1)
    with (Ok (Z.lor 0 (Z.shiftl (byte_val b3) (8 * 0)), b4 :: rest)) in H.
  cbv iota in H.
  unfold bind at 1, lift at 1 in H. rewrite P1 in H.
  unfold bind at 1, set_max_req_len at 1 in H.
  unfold bind at 1 in H.
  match type of H with
  | context [get_device_sdr_loop ?f ?a ?b ?c ?d ?e ?g ?h ?i ?st] =>
      destruct (get_device_sdr_loop f a b c d e g h i st) as [rl s2] eqn:El
  end.
  exists rsv, s0, tr0, nid, b0, b1, b2, b3, b4, rest, s1, x, tr1, q0, r0, rl.
  cbv zeta.
  assert (s2 = s' /\ r = decoded rl) as [-> ->].
  { unfold decoded. destruct rl as [[bf n]|e|]; unfold lift in H; inversion H; auto. }
  repeat split; auto; try apply H0; try apply H1; try apply Hq.
Qed.

(** A call whose header fetch returns at least five bytes is its loop,
    entered with the cap at 20, and the decoder after it. *)
Lemma get_device_sdr_run (fuel : nat) (record_id : Z) (reservation_id : option Z)
  (s s0 s1 : state) (rsv nid : Z) (b0 b1 b2 b3 b4 : byte) (rest : list byte) :
  let data := b0 :: b1 :: b2 :: b3 :: b4 :: rest in
  match reservation_id with
  | None => reserve_device_sdr_repository
  | Some v => ret v
  end s = (Ok rsv, s0) ->
  _get_device_sdr_chunk rsv record_id 0 5 s0 = (Ok (nid, data), s1) ->
  get_device_sdr fuel record_id reservation_id s
  = let (rl, s') :=
      get_device_sdr_loop fuel rsv (header_record_id b0 b1) (header_record_length b4)
        20 nid data data (len data) (mkState (world s1) (Some 20) (trace s1)) in
    (decoded rl, s').
Proof.
  intros data Ha Hc. unfold get_device_sdr.
  unfold bind at 1. rewrite Ha. unfold bind at 1. rewrite Hc.
  destruct (pop_unsigned_int_header b0 b1 b2 b3 b4 rest) as [P2 P1].
  unfold bind at 1, lift at 1. fold data in P2. rewrite P2.
  unfold bind at 1, lift at 1.
  change (pop_unsigned_int (b2 :: b3 :: b4 :: rest) 1)
    with (Ok (Z.lor 0 (Z.shiftl (byte_val b2) (8 * 0)), b3 :: b4 :: rest)).
  cbv iota.
  unfold bind at 1, lift at 1.
  change (pop_unsigned_int (b3 :: b4 :: rest) 1)
    with (Ok (Z.lor 0 (Z.shiftl (byte_val b3) (8 * 0)), b4 :: rest)).
  cbv iota.
  unfold bind at 1, lift at 1. rewrite P1.
  unfold bind at 1, set_max_req_len at 1. unfold bind at 1.
  fold (header_record_length b4).
  destruct (get_device_sdr_loop fuel rsv (header_record_id b0 b1) (header_record_length b4)
              20 nid data data (len data) (mkState (world s1) (Some 20) (trace s1)))
    as [[[bf n]|e|] s2]; reflexivity.
Qed.

(** An iteration that does not raise [RetryError] first asks for the next
    bytes: as many as the cap allows, or what is left of the record. *)
Lemma get_device_sdr_loop_first (fuel : nat)
  (reservation_id record_id record_length retry nid : Z)
  (data record_data : list byte) (offset : Z) (s s' : state)
  (r : result (list byte * Z)) (m : Z) :
  retry - 1 <> 0 ->
  max_req_len s = Some m ->
  get_device_sdr_loop (S fuel) reservation_id record_id record_length
    retry nid data record_data offset s = (r, s') ->
  exists x tr,
    trace s' = trace s
               ++ Exchange
                    (GetDeviceSdr
                       (GetDeviceSdrReq.mk reservation_id record_id offset
                          (if offset + m >? record_length then record_length - offset
                           else m))) x :: tr.
Proof.
  intros Hr Hm H. cbn [get_device_sdr_loop] in H.
  apply Z.eqb_neq in Hr. rewrite Hr in H. clear Hr.
  unfold bind at 1 in H. unfold get_max_req_len at 1 in H. rewrite Hm in H.
  unfold bind at 1 in H.
  match type of H with
  | context [get_device_sdr_try ?a ?b ?c ?d ?e ?f ?g s] =>
      destruct (get_device_sdr_try a b c d e f g s) as [rt s1] eqn:Et;
      apply (get_device_sdr_try_spec _ _ _ _ _ _ _ _ _ _ m Hm) in Et
  end.
  destruct Et as (x & tr' & Ht & _ & Hcase). cbv zeta in Ht, Hcase.
  exists x. unfold logs in Ht.
  assert (Hrest : forall m1, max_req_len s1 = Some m1 ->
            forall retry' nid1 data1, rt = Ok (retry', nid1, data1) ->
            exists t, trace s' = trace s1 ++ t).
  { intros m1 Hm1 retry' nid1 data1 ->.
    destruct (len (record_data ++ data1) >=? record_length).
    - inversion H; subst. exists []. now rewrite app_nil_r.
    - apply (get_device_sdr_loop_spec _ _ _ _ _ _ _ _ _ _ _ _ m1 Hm1) in H.
      destruct H as (t & _ & Ht2 & _). exists t. exact Ht2. }
  assert (Hcat : forall t, trace s' = trace s1 ++ t ->
            exists tr, trace s' = trace s ++ Exchange
              (GetDeviceSdr
                 (GetDeviceSdrReq.mk reservation_id record_id offset
                    (if offset + m >? record_length then record_length - offset
                     else m))) x :: tr).
  { intros t E. exists (tr' ++ t). rewrite E, Ht, <- app_assoc. reflexivity. }
  destruct Hcase as [(q & rsp & E & _ & _ & Hm1)|[(E & _ & Hm1)|(e & -> & _ & Hm1)]].
  - destruct (Hrest _ Hm1 _ _ _ E) as (t & Et). eauto.
  - destruct (Hrest _ Hm1 _ _ _ E) as (t & Et). eauto.
  - inversion H; subst. apply (Hcat []). now rewrite app_nil_r.
Qed.

Lemma last_map {A B : Type} (f : A -> B) (l : list A) (d : A) :
  last (map f l) (f d) = f (last l d).
Proof.
  induction l as [|a [|b l] IH]; try reflexivity. exact IH.
Qed.

(** C9.  The record [get_device_sdr] returns carries the next record id
    reported by the last successful chunk fetch of the call.  The successful
    fetches of the call begin with the header fetch (offset 0); as soon as a
    later fetch has succeeded, it is that fetch's next record id, and not the
    header fetch's, that the record carries. *)
Theorem get_device_sdr_next_id_of_last_fetch (fuel : nat) (record_id : Z)
  (reservation_id : option Z) (s s' : state) (sdr : Sdr Body) :
  get_device_sdr fuel record_id reservation_id s = (Ok sdr, s') ->
  exists tr hdr later,
    logs s s' tr
    /\ successes tr = hdr :: later
    /\ GetDeviceSdrReq.offset (fst hdr) = 0
    /\ next_id sdr = GetDeviceSdrRsp.next_record_id (snd (last later hdr))
    /\ exists record_data,
        create_sdr decode_body record_data
          (GetDeviceSdrRsp.next_record_id (snd (last later hdr))) = Ok sdr.
Proof.
  intros H. apply get_device_sdr_inv in H.
  destruct H as [(e & tr & E & _)|[(tr & E & _)|H]]; try discriminate.
  destruct H as (rsv & s0 & tr0 & nid & b0 & b1 & b2 & b3 & b4 & rest & s1 & x & tr1
                 & q0 & r0 & rl & H).
  cbv zeta in H.
  destruct H as (_ & [_ T0] & S0 & _ & _ & [_ T1] & S1 & Hq & Hn & _ & Hl & Hr & _).
  apply get_device_sdr_loop_spec with (m := 20) in Hl; [|reflexivity].
  destruct Hl as (tr2 & m' & T2 & _ & _ & Hlast).
  destruct rl as [[buf nid']|e|]; try discriminate.
  specialize (Hlast _ _ eq_refl). unfold decoded in Hr.
  assert (Hnext : nid' = GetDeviceSdrRsp.next_record_id (snd (last (successes tr2) (q0, r0)))).
  { rewrite Hlast. unfold last_next_record_id. rewrite Hn.
    apply (last_map (fun c => GetDeviceSdrRsp.next_record_id (snd c)) (successes tr2) (q0, r0)). }
  assert (Hid : next_id sdr = nid').
  { unfold create_sdr in Hr. destruct (decode_body buf) as [b|]; [|discriminate].
    inversion Hr; reflexivity. }
  exists (tr0 ++ (Exchange (GetDeviceSdr (GetDeviceSdrReq.mk rsv record_id 0 5)) x :: tr1)
              ++ tr2), (q0, r0), (successes tr2).
  split.
  { unfold logs in *. cbn [trace] in T2. rewrite T2, T1, T0, <- !app_assoc. reflexivity. }
  split.
  { rewrite !successes_app, S0, S1. reflexivity. }
  split.
  { destruct Hq as (_ & Ho & _). cbn in Ho. cbn. congruence. }
  split; [congruence|].
  exists buf. rewrite <- Hnext. symmetry. exact Hr.
Qed.

(** C10.  When the header fetch has already brought the whole record (five
    bytes, payload length 0), the loop still sends a chunk request next: for
    offset 5, and of length 0. *)
Theorem get_device_sdr_complete_header_fetches_again (fuel : nat) (record_id : Z)
  (reservation_id : option Z) (s s0 s1 s' : state) (rsv nid : Z)
  (b0 b1 b2 b3 b4 : byte) (r : result (Sdr Body)) :
  match reservation_id with
  | None => reserve_device_sdr_repository
  | Some v => ret v
  end s = (Ok rsv, s0) ->
  _get_device_sdr_chunk rsv record_id 0 5 s0 = (Ok (nid, [b0; b1; b2; b3; b4]), s1) ->
  byte_val b4 = 0 ->
  get_device_sdr (S fuel) record_id reservation_id s = (r, s') ->
  exists req x tr,
    trace s' = trace s1 ++ Exchange (GetDeviceSdr req) x :: tr
    /\ GetDeviceSdrReq.offset req = 5
    /\ GetDeviceSdrReq.length req = 0.
Proof.
  intros Ha Hc Hb H.
  rewrite (get_device_sdr_run _ _ _ _ _ _ _ _ _ _ _ _ _ _ Ha Hc) in H.
  match type of H with
  | (let (_, _) := ?l in _) = _ => destruct l as [rl s2] eqn:El
  end.
  inversion H; subst s2. clear H.
  apply get_device_sdr_loop_first with (m := 20) in El; [|lia|reflexivity].
  destruct El as (x & tr & Ht). cbn [trace] in Ht.
  eexists _, x, tr. split; [exact Ht|]. cbn.
  unfold header_record_length. rewrite Hb. split; reflexivity.
Qed.

(** C5, as the code has it.  The cap [max_req_len] never goes up inside the
    loop of one call; and a call that gets as far as its loop enters it with
    the cap at 20, whatever the cap was before the call, so that it ends with
    a cap of at most 20.  A call that raises before its loop leaves the cap as
    it was. *)
Theorem max_req_len_within_one_call (fuel : nat) (record_id : Z)
  (reservation_id : option Z) (s s' : state) (r : result (Sdr Body)) :
  (forall (rsv rid len0 retry nid : Z) (data buf : list byte) (off m : Z)
          (t t' : state) (rl : result (list byte * Z)),
      max_req_len t = Some m ->
      get_device_sdr_loop fuel rsv rid len0 retry nid data buf off t = (rl, t') ->
      exists m', max_req_len t' = Some m' /\ m' <= m)
  /\ (get_device_sdr fuel record_id reservation_id s = (r, s') ->
      (max_req_len s' = max_req_len s /\ exists e, r = Raise e)
      \/ exists (rsv rid len0 nid : Z) (data : list byte) (t : state)
                (rl : result (list byte * Z)) (m' : Z),
          max_req_len t = Some 20
          /\ get_device_sdr_loop fuel rsv rid len0 20 nid data data (len data) t = (rl, s')
          /\ max_req_len s' = Some m' /\ m' <= 20).
Proof.
  split.
  - intros rsv rid len0 retry nid data buf off m t t' rl Hm H.
    apply (get_device_sdr_loop_spec _ _ _ _ _ _ _ _ _ _ _ _ m Hm) in H.
    destruct H as (_ & m' & _ & H1 & H2 & _). eauto.
  - intros H. apply get_device_sdr_inv in H.
    destruct H as [(e & tr & E & [Hm _] & _)|[(tr & E & [Hm _] & _)|H]];
      [left; eauto|left; eauto|right].
    destruct H as (rsv & s0 & tr0 & nid & b0 & b1 & b2 & b3 & b4 & rest & s1 & x & tr1
                   & q0 & r0 & rl & H).
    cbv zeta in H. destruct H as (_ & _ & _ & _ & _ & _ & _ & _ & _ & _ & Hl & _).
    pose proof Hl as Hl'.
    apply get_device_sdr_loop_spec with (m := 20) in Hl'; [|reflexivity].
    destruct Hl' as (_ & m' & _ & H1 & H2 & _).
    eexists _, _, _, _, _, _, _, m'. split; [|split; [exact Hl|split; assumption]].
    reflexivity.
Qed.

(** ** Assembling a record the controller serves *)








Lemma acquire_inv (reservation_id : option Z) (s s0 : state) (ra : result Z) :
  match reservation_id with
  | None => reserve_device_sdr_repository
  | Some v => ret v
  end s = (ra, s0) ->
  exists tr0, extends s s0 tr0 /\ successes tr0 = [] /\ chunk_requests tr0 = [].
Proof.
  destruct reservation_id as [v|]; intros E.
  - inversion E; subst. exists []. split; [apply extends_refl|]. split; reflexivity.
  - apply reserve_inv in E. destruct E as (t & ? & ? & ? & ?). exists t. auto.
Qed.

Section Assembly.
(** The record as a single read of all of it returns it: a header of five
    bytes, the fifth the length of the payload behind it. *)
Variable record : list byte.
Variables b0 b1 b2 b3 b4 : byte.
Variable payload : list byte.
Hypothesis record_layout : record = b0 :: b1 :: b2 :: b3 :: b4 :: payload.
Hypothesis record_length : len record = byte_val b4 + 5.

(** The states of the transport in which the controller serves the record. *)
Variable Served : W -> Prop.
Variable record_id : Z.
Variable reservation_id : option Z.

(** A reservation is to be had, ... *)
Hypothesis reservation_ok :
  forall s : state,
    Served (world s) ->
    exists rsv s0,
      match reservation_id with
      | None => reserve_device_sdr_repository
      | Some v => ret v
      end s = (Ok rsv, s0)
      /\ Served (world s0).

(** ... and every chunk fetch within the record succeeds: asked for the
    record under the id of the call or under the id in its header, it returns
    the bytes a single read has at that place. *)
Hypothesis fetch_ok :
  forall (s : state) (rsv rid offset length : Z),
    Served (world s) ->
    rid = record_id \/ rid = header_record_id b0 b1 ->
    0 <= offset -> 0 <= length -> offset + length <= len record ->
    exists nid s',
      _get_device_sdr_chunk rsv rid offset length s
      = (Ok (nid, slice record offset length), s')
      /\ Served (world s').



End Assembly.

(** ** Walking the repository *)






(** The generator stops at a record that carries 0xFFFF without sending
    anything. *)
Lemma device_sdr_entries_next_stops (fuel : nat) (rsv : Z) (sdr : Sdr Body) (s : state) :
  next_id sdr = 0xffff ->
  device_sdr_entries_next fuel (Suspended rsv sdr) s = (Ok (None, Finished), s).
Proof. intros H. cbn [device_sdr_entries_next]. rewrite H. reflexivity. Qed.






(** ** Sensor readings and thresholds *)

(** C7, as the code has it.  With both assertion-state bytes absent the
    states returned are absent; with [states1] present they are [states1],
    or-ed with [states2] shifted left by 8 bits when [states2] is present
    too. *)
Theorem get_sensor_reading_states (sensor_number lun : Z) (s : state)
  (rsp : GetSensorReadingRsp.t) (w' : W) :
  send_message (GetSensorReading (GetSensorReadingReq.mk sensor_number lun)) (world s)
  = (inr rsp, w') ->
  GetSensorReadingRsp.completion_code rsp = 0 ->
  let reading :=
    if truthy (GetSensorReadingRsp.initial_update_in_progress rsp) then None
    else Some (GetSensorReadingRsp.sensor_reading rsp) in
  match GetSensorReadingRsp.states1 rsp, GetSensorReadingRsp.states2 rsp with
  | None, None =>
      fst (get_sensor_reading sensor_number lun s) = Ok (reading, None)
  | Some s1, None =>
      fst (get_sensor_reading sensor_number lun s) = Ok (reading, Some s1)
  | Some s1, Some s2 =>
      fst (get_sensor_reading sensor_number lun s)
      = Ok (reading, Some (Z.lor s1 (Z.shiftl s2 8)))
  | None, Some _ => True
  end.
Proof.
  intros Hsend Hcc reading. unfold get_sensor_reading, bind, send.
  rewrite Hsend. unfold check_completion_code. rewrite Hcc. cbn.
  destruct (GetSensorReadingRsp.states1 rsp) as [s1|],
           (GetSensorReadingRsp.states2 rsp) as [s2|]; cbn; auto.
Qed.

(** C8.  The request [set_sensor_thresholds] sends has, for each threshold
    the caller supplies, the set bit at 1 and the value supplied; for each
    threshold not supplied, set bit and value are what they are in a fresh
    request. *)
Theorem set_sensor_thresholds_marks_supplied (sensor_number lun : Z)
  (unr ucr unc lnc lcr lnr : option Z) (s : state) :
  exists req x,
    trace (snd (set_sensor_thresholds sensor_number lun unr ucr unc lnc lcr lnr s))
    = trace s ++ [Exchange (SetSensorThresholds req) x]
    /\ SetSensorThresholdsReq.sensor_number req = sensor_number
    /\ SetSensorThresholdsReq.lun req = lun
    /\ let mask := SetSensorThresholdsReq.set_mask req in
       let value := SetSensorThresholdsReq.threshold req in
       threshold_written unr (Thresholds.unr mask) (Thresholds.unr value)
         (Thresholds.unr fresh_set_mask) (Thresholds.unr fresh_threshold)
       /\ threshold_written ucr (Thresholds.ucr mask) (Thresholds.ucr value)
            (Thresholds.ucr fresh_set_mask) (Thresholds.ucr fresh_threshold)
       /\ threshold_written unc (Thresholds.unc mask) (Thresholds.unc value)
            (Thresholds.unc fresh_set_mask) (Thresholds.unc fresh_threshold)
       /\ threshold_written lnc (Thresholds.lnc mask) (Thresholds.lnc value)
            (Thresholds.lnc fresh_set_mask) (Thresholds.lnc fresh_threshold)
       /\ threshold_written lcr (Thresholds.lcr mask) (Thresholds.lcr value)
            (Thresholds.lcr fresh_set_mask) (Thresholds.lcr fresh_threshold)
       /\ threshold_written lnr (Thresholds.lnr mask) (Thresholds.lnr value)
            (Thresholds.lnr fresh_set_mask) (Thresholds.lnr fresh_threshold).
Proof.
  set (req := set_sensor_thresholds_request sensor_number lun unr ucr unc lnc lcr lnr).
  destruct (send_message (SetSensorThresholds req) (world s)) as [x w] eqn:E.
  exists req, x. split.
  { unfold set_sensor_thresholds, bind, send. fold req. rewrite E.
    destruct x as [e|rsp]; [reflexivity|].
    unfold check_completion_code.
    destruct (SetSensorThresholdsRsp.completion_code rsp =? 0); reflexivity. }
  unfold req, set_sensor_thresholds_request.
  destruct unr, ucr, unc, lnc, lcr, lnr; cbn; repeat split; reflexivity.
Qed.

End Properties.

(** * Further properties *)

Section Further.
Context {P : Platform}.

(** ** The log of a chunk fetch *)

Lemma reserve_cases (s s' : state) (r : result Z) :
  reserve_device_sdr_repository s = (r, s') ->
  exists x,
    extends s s' [Exchange ReserveDeviceSdrRepository x]
    /\ match x with
       | inl e => r = Raise e
       | inr rr =>
           if ReserveDeviceSdrRepositoryRsp.completion_code rr =? 0
           then r = Ok (ReserveDeviceSdrRepositoryRsp.reservation_id rr)
           else r = Raise (CompletionCodeError
                             (ReserveDeviceSdrRepositoryRsp.completion_code rr))
       end.
Proof.
  unfold reserve_device_sdr_repository, bind. intros H.
  destruct (send ReserveDeviceSdrRepository s) as [r1 s1] eqn:Es.
  apply send_inv in Es. destruct Es as (x & _ & Hx & Hr). exists x.
  destruct x as [e|rr]; subst r1.
  - inversion H; subst. auto.
  - unfold check_completion_code in H.
    destruct (ReserveDeviceSdrRepositoryRsp.completion_code rr =? 0);
      inversion H; subst; auto.
Qed.

(** The loop writes a log of the shape [chunk_trace] and ends by itself. *)
Lemma get_device_sdr_chunk_loop_trace (fuel : nat) :
  forall (req : GetDeviceSdrReq.t) (retry : Z) (s s' : state) (r : result (Z * list byte)),
    1 <= retry <= Z.of_nat fuel ->
    get_device_sdr_chunk_loop fuel req retry s = (r, s') ->
    exists tr, extends s s' tr /\ chunk_trace req retry tr r.
Proof.
  induction fuel as [|fuel IH]; intros req retry s s' r Hr H; [lia|].
  cbn [get_device_sdr_chunk_loop] in H.
  destruct (retry - 1 =? 0) eqn:E0.
  { apply Z.eqb_eq in E0. inversion H; subst. exists []. split; [apply extends_refl|].
    now constructor. }
  apply Z.eqb_neq in E0. assert (Hr' : 1 <= retry - 1 <= Z.of_nat fuel) by lia.
  unfold bind at 1 in H.
  destruct (send (GetDeviceSdr req) s) as [r1 s1] eqn:Es.
  apply send_inv in Es. destruct Es as (x & _ & Hx & Hr1).
  destruct x as [e|rsp]; subst r1.
  { inversion H; subst. exists [Exchange (GetDeviceSdr req) (inl e)].
    split; [exact Hx|]. now constructor. }
  destruct (GetDeviceSdrRsp.completion_code rsp =? 0) eqn:Ecc.
  { apply Z.eqb_eq in Ecc. inversion H; subst.
    exists [Exchange (GetDeviceSdr req) (inr rsp)]. split; [exact Hx|]. now constructor. }
  apply Z.eqb_neq in Ecc.
  destruct (GetDeviceSdrRsp.completion_code rsp =? CC_RES_CANCELED) eqn:E1.
  { apply Z.eqb_eq in E1. unfold bind at 1 in H.
    destruct (reserve_device_sdr_repository s1) as [rv s2] eqn:Ev.
    apply reserve_cases in Ev. destruct Ev as (y & Hy & Hrv).
    destruct y as [e|rr].
    - subst rv. inversion H; subst.
      exists ([Exchange (GetDeviceSdr req) (inr rsp)]
                ++ [Exchange ReserveDeviceSdrRepository (inl e)]).
      split; [eapply extends_trans; eauto|].
      apply chunk_not_reserved; auto.
    - destruct (ReserveDeviceSdrRepositoryRsp.completion_code rr =? 0) eqn:Ez; subst rv.
      + apply Z.eqb_eq in Ez. unfold bind at 1 in H.
        destruct (sleep 1 s2) as [r3 s3] eqn:E3.
        apply sleep_inv in E3. destruct E3 as (-> & H3 & _).
        apply IH in H; [|exact Hr']. destruct H as (tr & Htr & Hct).
        exists (([Exchange (GetDeviceSdr req) (inr rsp)]
                   ++ ([Exchange ReserveDeviceSdrRepository (inr rr)] ++ [Sleep 1])) ++ tr).
        split.
        * eapply extends_trans; [|exact Htr]. eapply extends_trans; [exact Hx|].
          eapply extends_trans; eauto.
        * cbn [app]. apply chunk_reserved_again; auto.
      + apply Z.eqb_neq in Ez. inversion H; subst.
        exists ([Exchange (GetDeviceSdr req) (inr rsp)]
                  ++ [Exchange ReserveDeviceSdrRepository (inr rr)]).
        split; [eapply extends_trans; eauto|].
        apply chunk_not_reserved; auto. }
  apply Z.eqb_neq in E1.
  destruct (GetDeviceSdrRsp.completion_code rsp =? CC_TIMEOUT) eqn:E2.
  { apply Z.eqb_eq in E2. unfold bind at 1 in H.
    destruct (sleep 1 s1) as [r3 s3] eqn:E3.
    apply sleep_inv in E3. destruct E3 as (-> & H3 & _).
    apply IH in H; [|exact Hr']. destruct H as (tr & Htr & Hct).
    exists (([Exchange (GetDeviceSdr req) (inr rsp)] ++ [Sleep 1]) ++ tr). split.
    - eapply extends_trans; [|exact Htr]. eapply extends_trans; eauto.
    - cbn [app]. apply chunk_timed_out; auto. }
  apply Z.eqb_neq in E2.
  destruct (GetDeviceSdrRsp.completion_code rsp =? CC_RESP_COULD_NOT_BE_PRV) eqn:E4.
  { apply Z.eqb_eq in E4. unfold bind at 1 in H.
    destruct (sleep (retry - 1) s1) as [r3 s3] eqn:E3.
    apply sleep_inv in E3. destruct E3 as (-> & H3 & _).
    apply IH in H; [|exact Hr']. destruct H as (tr & Htr & Hct).
    exists (([Exchange (GetDeviceSdr req) (inr rsp)] ++ [Sleep (retry - 1)]) ++ tr). split.
    - eapply extends_trans; [|exact Htr]. eapply extends_trans; eauto.
    - cbn [app]. apply chunk_not_provided; auto. }
  apply Z.eqb_neq in E4.
  unfold bind at 1 in H.
  destruct (check_completion_code (GetDeviceSdrRsp.completion_code rsp) s1)
    as [r3 s3] eqn:E3.
  apply check_completion_code_inv in E3. destruct E3 as [-> ->].
  apply Z.eqb_neq in Ecc. rewrite Ecc in H. apply Z.eqb_neq in Ecc.
  inversion H; subst. exists [Exchange (GetDeviceSdr req) (inr rsp)].
  split; [exact Hx|]. now apply chunk_refused.
Qed.

Lemma get_device_sdr_chunk_trace (reservation_id record_id offset length : Z)
  (s s' : state) (r : result (Z * list byte)) :
  _get_device_sdr_chunk reservation_id record_id offset length s = (r, s') ->
  exists tr,
    extends s s' tr
    /\ chunk_trace (GetDeviceSdrReq.mk reservation_id record_id offset length) 5 tr r.
Proof.
  unfold _get_device_sdr_chunk. intros H.
  eapply get_device_sdr_chunk_loop_trace; [|exact H]. lia.
Qed.

Lemma sleeps_app (a b : list event) : sleeps (a ++ b) = sleeps a ++ sleeps b.
Proof.
  induction a as [|e a IH]; [reflexivity|].
  destruct e; cbn [app sleeps]; rewrite IH; reflexivity.
Qed.

Lemma reservations_app (a b : list event) :
  reservations (a ++ b) = (reservations a + reservations b)%nat.
Proof.
  induction a as [|e a IH]; [reflexivity|].
  destruct e as [[| | |] x|]; cbn [app reservations]; rewrite IH; reflexivity.
Qed.

Lemma cancellations_app (a b : list event) :
  cancellations (a ++ b) = (cancellations a + cancellations b)%nat.
Proof.
  induction a as [|e a IH]; [reflexivity|].
  destruct e as [[| | |] [x|x]|]; cbn [app cancellations]; rewrite IH; try reflexivity.
  destruct (negb (GetDeviceSdrRsp.completion_code x =? 0)
            && (GetDeviceSdrRsp.completion_code x =? CC_RES_CANCELED)); reflexivity.
Qed.

Lemma chunk_trace_bounds (req : GetDeviceSdrReq.t) (retry : Z) (tr : list event)
  (r : result (Z * list byte)) :
  chunk_trace req retry tr r ->
  1 <= retry ->
  len (chunk_requests tr) <= retry - 1
  /\ len (sleeps tr) <= retry - 1
  /\ Z.of_nat (reservations tr) <= retry - 1.
Proof.
  unfold len. induction 1; intros Hr; cbn [chunk_requests sleeps reservations List.length];
    try (specialize (IHchunk_trace ltac:(lia))); try lia.
Qed.

Lemma chunk_trace_reservations (req : GetDeviceSdrReq.t) (retry : Z) (tr : list event)
  (r : result (Z * list byte)) :
  chunk_trace req retry tr r -> reservations tr = cancellations tr.
Proof.
  induction 1; cbn [reservations cancellations]; try reflexivity;
    repeat match goal with
           | H : GetDeviceSdrRsp.completion_code ?rsp = 0 |- _ => rewrite H
           | H : GetDeviceSdrRsp.completion_code ?rsp <> 0 |- _ =>
               apply Z.eqb_neq in H; rewrite H
           | H : GetDeviceSdrRsp.completion_code ?rsp = CC_RES_CANCELED |- _ =>
               apply Z.eqb_eq in H; rewrite H
           | H : GetDeviceSdrRsp.completion_code ?rsp <> CC_RES_CANCELED |- _ =>
               apply Z.eqb_neq in H; rewrite H
           end; cbn [negb andb]; try congruence; try reflexivity.
Qed.

(** X1.  Whatever the controller answers, one call of [_get_device_sdr_chunk]
    comes to an end having sent at most four [GetDeviceSdr] requests, all of
    them for the same bytes of the same record, at most four reservation
    requests and having slept at most four times. *)
Theorem get_device_sdr_chunk_sends_at_most_four
  (reservation_id record_id offset length : Z) (s s' : state)
  (r : result (Z * list byte)) :
  _get_device_sdr_chunk reservation_id record_id offset length s = (r, s') ->
  exists tr,
    trace s' = trace s ++ tr
    /\ r <> OutOfFuel
    /\ (List.length (chunk_requests tr) <= 4)%nat
    /\ Forall (same_chunk (GetDeviceSdrReq.mk reservation_id record_id offset length))
         (chunk_requests tr)
    /\ (reservations tr <= 4)%nat
    /\ (List.length (sleeps tr) <= 4)%nat.
Proof.
  intros H. pose proof H as H1. apply get_device_sdr_chunk_trace in H1.
  destruct H1 as (tr & [_ Ht] & Hct).
  pose proof H as H2. apply get_device_sdr_chunk_spec in H2.
  destruct H2 as (x & tr' & [_ Ht'] & [Hall _] & Hnf).
  assert (tr = Exchange (GetDeviceSdr (GetDeviceSdrReq.mk reservation_id record_id offset length)) x :: tr').
  { rewrite Ht in Ht'. apply app_inv_head in Ht'. exact Ht'. }
  subst tr. eexists. split; [exact Ht|]. split; [exact Hnf|].
  destruct (chunk_trace_bounds _ _ _ _ Hct ltac:(lia)) as (B1 & B2 & B3).
  unfold len in *. repeat split; try lia. exact Hall.
Qed.

(** The reservation requests of a chunk fetch are as many as the
    "reservation canceled" answers it got. *)
Lemma get_device_sdr_chunk_reserves_once_per_cancellation
  (reservation_id record_id offset length : Z) (s s' : state)
  (r : result (Z * list byte)) :
  _get_device_sdr_chunk reservation_id record_id offset length s = (r, s') ->
  exists tr,
    trace s' = trace s ++ tr
    /\ reservations tr = cancellations tr.
Proof.
  intros H. apply get_device_sdr_chunk_trace in H. destruct H as (tr & [_ Ht] & Hct).
  exists tr. split; [exact Ht|]. eapply chunk_trace_reservations; eauto.
Qed.

(** ** What holds of every chunk fetch holds of the whole log *)

Section Closure.
(** A property of logs that holds of the empty log and of two logs put
    together, ... *)
Variable Q : list event -> Prop.
Hypothesis Q_nil : Q [].
Hypothesis Q_app : forall a b : list event, Q a -> Q b -> Q (a ++ b).

Lemma logs_refl (s : state) : logs s s [].
Proof. unfold logs. now rewrite app_nil_r. Qed.

Lemma logs_trans (s1 s2 s3 : state) (a b : list event) :
  logs s1 s2 a -> logs s2 s3 b -> logs s1 s3 (a ++ b).
Proof. unfold logs. intros H1 H2. rewrite H2, H1, app_assoc. reflexivity. Qed.

Section Loop.
Variables reservation_id record_id : Z.
(** ... and of the log of every chunk fetch of one record, under one
    reservation, that asks for no more than 20 bytes. *)
Hypothesis Q_fetch :
  forall (offset length : Z) (tr : list event) (r : result (Z * list byte)),
    length <= 20 ->
    chunk_trace (GetDeviceSdrReq.mk reservation_id record_id offset length) 5 tr r ->
    Q tr.

Lemma get_device_sdr_try_closure (offset length retry nid : Z) (data : list byte)
  (s s' : state) (r : result (Z * Z * list byte)) (m : Z) :
  max_req_len s = Some m -> length <= 20 ->
  get_device_sdr_try reservation_id record_id offset length retry nid data s = (r, s') ->
  exists tr m',
    logs s s' tr /\ Q tr /\ max_req_len s' = Some m' /\ m' <= m.
Proof.
  intros Hm Hlen H. unfold get_device_sdr_try, try_except_cc in H.
  unfold bind at 1 in H.
  destruct (_get_device_sdr_chunk reservation_id record_id offset length s)
    as [rc s1] eqn:Ec.
  apply get_device_sdr_chunk_trace in Ec. destruct Ec as (tr & [Hm1 Ht] & Hct).
  rewrite Hm in Hm1. pose proof (Q_fetch _ _ _ _ Hlen Hct) as HQ.
  assert (Hsame : (r, s') = (r, s1) -> exists tr m',
             logs s s' tr /\ Q tr /\ max_req_len s' = Some m' /\ m' <= m).
  { intros E. inversion E; subst. exists tr, m. repeat split; auto. lia. }
  destruct rc as [[n1 d1]|e|].
  - apply Hsame. inversion H; reflexivity.
  - destruct e as [|cc| | | | |]; try (apply Hsame; inversion H; reflexivity).
    destruct (cc =? CC_CANT_RET_NUM_REQ_BYTES).
    + unfold bind, get_max_req_len, set_max_req_len in H. rewrite Hm1 in H. cbn in H.
      exists tr, (m - 4).
      destruct (m - 4 <=? 0); inversion H; subst; cbn; repeat split; auto; lia.
    + apply Hsame. inversion H; reflexivity.
  - apply Hsame. inversion H; reflexivity.
Qed.

Lemma get_device_sdr_loop_closure (fuel : nat) :
  forall (record_length retry nid : Z) (data record_data : list byte) (offset : Z)
         (s s' : state) (r : result (list byte * Z)) (m : Z),
    max_req_len s = Some m -> m <= 20 ->
    get_device_sdr_loop fuel reservation_id record_id record_length
      retry nid data record_data offset s = (r, s') ->
    exists tr, logs s s' tr /\ Q tr.
Proof.
  induction fuel as [|fuel IH];
    intros L retry nid data buf off s s' r m Hm Hm20 H; cbn [get_device_sdr_loop] in H.
  { inversion H; subst. exists []. split; [apply logs_refl|exact Q_nil]. }
  destruct (retry - 1 =? 0).
  { inversion H; subst. exists []. split; [apply logs_refl|exact Q_nil]. }
  unfold bind at 1 in H. unfold get_max_req_len at 1 in H. rewrite Hm in H.
  unfold bind at 1 in H.
  match type of H with
  | context [get_device_sdr_try _ _ ?c ?d ?e ?f ?g s] =>
      destruct (get_device_sdr_try reservation_id record_id c d e f g s)
        as [rt s1] eqn:Et;
      apply (get_device_sdr_try_closure _ _ _ _ _ _ _ _ m Hm) in Et
  end.
  2:{ destruct (off + m >? L) eqn:E; [apply Z.gtb_gt in E|]; lia. }
  destruct Et as (tr1 & m1 & Ht1 & HQ1 & Hm1 & Hle).
  destruct rt as [[[retry' nid1] data1]|e|].
  - destruct (len (buf ++ data1) >=? L).
    + inversion H; subst. exists tr1. auto.
    + apply (IH _ _ _ _ _ _ _ _ _ m1 Hm1 ltac:(lia)) in H.
      destruct H as (tr2 & Ht2 & HQ2). exists (tr1 ++ tr2).
      split; [eapply logs_trans; eauto|apply Q_app; assumption].
  - inversion H; subst. exists tr1. auto.
  - inversion H; subst. exists tr1. auto.
Qed.

End Loop.

(** ... of whatever record and under whatever reservation. *)
Hypothesis Q_fetch :
  forall (req : GetDeviceSdrReq.t) (tr : list event) (r : result (Z * list byte)),
    GetDeviceSdrReq.length req <= 20 ->
    chunk_trace req 5 tr r ->
    Q tr.

(** The log of a call of [get_device_sdr] is then the reservation request, if
    the call has to reserve, and a log of which the property holds. *)
Lemma get_device_sdr_closure (fuel : nat) (record_id : Z) (reservation_id : option Z)
  (s s' : state) (r : result (Sdr Body)) :
  get_device_sdr fuel record_id reservation_id s = (r, s') ->
  exists tr0 tr,
    logs s s' (tr0 ++ tr) /\ Q tr
    /\ match reservation_id with
       | Some _ => tr0 = []
       | None => exists x, tr0 = [Exchange ReserveDeviceSdrRepository x]
       end.
Proof.
  intros H.
  assert (Ha : exists ra s0 tr0,
             match reservation_id with
             | None => reserve_device_sdr_repository
             | Some v => ret v
             end s = (ra, s0)
             /\ logs s s0 tr0
             /\ match reservation_id with
                | Some _ => tr0 = []
                | None => exists x, tr0 = [Exchange ReserveDeviceSdrRepository x]
                end).
  { destruct reservation_id as [v|].
    - exists (Ok v), s, []. repeat split. apply logs_refl.
    - destruct (reserve_device_sdr_repository s) as [ra s0] eqn:Er.
      pose proof Er as Er'. apply reserve_cases in Er'.
      destruct Er' as (x & [_ Hx] & _).
      exists ra, s0, [Exchange ReserveDeviceSdrRepository x]. repeat split; eauto. }
  destruct Ha as (ra & s0 & tr0 & Ea & Ht0 & Hshape).
  assert (Hstop : forall t, (r, s') = (t, s0) ->
             exists tr0 tr,
               logs s s' (tr0 ++ tr) /\ Q tr
               /\ match reservation_id with
                  | Some _ => tr0 = []
                  | None => exists x, tr0 = [Exchange ReserveDeviceSdrRepository x]
                  end).
  { intros t E. inversion E; subst. exists tr0, []. rewrite app_nil_r. auto. }
  pose proof H as Hcall.
  unfold get_device_sdr in H. unfold bind at 1 in H. rewrite Ea in H.
  destruct ra as [rsv|e|]; [|apply (Hstop (Raise e)); now inversion H
                            |apply (Hstop OutOfFuel); now inversion H].
  clear Hstop. unfold bind at 1 in H.
  destruct (_get_device_sdr_chunk rsv record_id 0 5 s0) as [rc s1] eqn:Ec.
  pose proof Ec as Ec'. apply get_device_sdr_chunk_trace in Ec'.
  destruct Ec' as (tr1 & [_ Ht1] & Hct).
  assert (HQ1 : Q tr1) by (eapply Q_fetch; [|exact Hct]; cbn; lia).
  assert (Hstop : forall t, (r, s') = (t, s1) ->
             exists tr0 tr,
               logs s s' (tr0 ++ tr) /\ Q tr
               /\ match reservation_id with
                  | Some _ => tr0 = []
                  | None => exists x, tr0 = [Exchange ReserveDeviceSdrRepository x]
                  end).
  { intros t E. inversion E; subst. exists tr0, tr1. repeat split; auto.
    eapply logs_trans; eauto. }
  destruct rc as [[nid data]|e|]; [|apply (Hstop (Raise e)); now inversion H
                                   |apply (Hstop OutOfFuel); now inversion H].
  destruct data as [|b0 [|b1 [|b2 [|b3 [|b4 rest]]]]];
    try (apply (Hstop (Raise DecodingError)); now inversion H).
  clear Hstop H.
  rewrite (get_device_sdr_run fuel record_id reservation_id s s0 s1 rsv nid
             b0 b1 b2 b3 b4 rest Ea Ec) in Hcall.
  match type of Hcall with
  | (let (_, _) := ?l in _) = _ => destruct l as [rl s2] eqn:El
  end.
  inversion Hcall; subst s2. clear Hcall.
  apply get_device_sdr_loop_closure with (m := 20) in El; try reflexivity; try lia.
  2:{ intros offset length tr r0 Hlen Hc. eapply Q_fetch; [|exact Hc]. exact Hlen. }
  destruct El as (tr2 & Ht2 & HQ2).
  exists tr0, (tr1 ++ tr2). split.
  { unfold logs in *. cbn [trace] in Ht2. rewrite Ht2, Ht1, Ht0, <- !app_assoc.
    reflexivity. }
  split; [apply Q_app; assumption|exact Hshape].
Qed.

(** The log of an enumeration is the reservation request that opens it and a
    log of which the property holds. *)
Lemma list_of_generator_closure (n fuel : nat) :
  forall (g : generator) (acc : list (Sdr Body)) (s s' : state)
         (r : result (list (Sdr Body))),
    list_of_generator n fuel g acc s = (r, s') ->
    exists tr0 tr,
      logs s s' (tr0 ++ tr) /\ Q tr
      /\ match g with
         | Created =>
             (n = O /\ tr0 = []) \/ exists x, tr0 = [Exchange ReserveDeviceSdrRepository x]
         | _ => tr0 = []
         end.
Proof.
  induction n as [|n IH]; intros g acc s s' r H; cbn [list_of_generator] in H.
  { inversion H; subst. exists [], []. split; [apply logs_refl|]. split; [exact Q_nil|].
    destruct g; auto. }
  assert (Hfetch : forall (rsv rid : Z) (s0 : state),
             (let (r1, s1) := get_device_sdr fuel rid (Some rsv) s0 in
              match r1 with
              | Ok sdr => list_of_generator n fuel (Suspended rsv sdr) (acc ++ [sdr]) s1
              | Raise e => (Raise e, s1)
              | OutOfFuel => (OutOfFuel, s1)
              end) = (r, s') ->
             exists tr, logs s0 s' tr /\ Q tr).
  { intros rsv rid s0 E.
    destruct (get_device_sdr fuel rid (Some rsv) s0) as [r1 s1] eqn:Eg.
    apply get_device_sdr_closure in Eg. destruct Eg as (t0 & t1 & Ht1 & HQ1 & ->).
    cbn [app] in Ht1.
    destruct r1 as [sdr|e|].
    - apply IH in E. destruct E as (u0 & t2 & Ht2 & HQ2 & ->). cbn [app] in Ht2.
      exists (t1 ++ t2). split; [eapply logs_trans; eauto|apply Q_app; assumption].
    - inversion E; subst. exists t1. auto.
    - inversion E; subst. exists t1. auto. }
  destruct g as [|rsv sdr|]; cbn [device_sdr_entries_next] in H.
  - unfold bind at 1 2 in H.
    destruct (reserve_device_sdr_repository s) as [ra s0] eqn:Er.
    apply reserve_cases in Er. destruct Er as (x & [_ Hx] & _).
    destruct ra as [rsv|e|].
    + destruct (Hfetch rsv 0 s0) as (tr & Ht & HQ).
      { unfold bind at 1 in H.
        destruct (get_device_sdr fuel 0 (Some rsv) s0) as [[sdr|e|] s1]; exact H. }
      exists [Exchange ReserveDeviceSdrRepository x], tr.
      split; [eapply logs_trans; eauto|]. split; [exact HQ|]. right. eauto.
    + inversion H; subst. exists [Exchange ReserveDeviceSdrRepository x], [].
      rewrite app_nil_r. split; [exact Hx|]. split; [exact Q_nil|]. right. eauto.
    + inversion H; subst. exists [Exchange ReserveDeviceSdrRepository x], [].
      rewrite app_nil_r. split; [exact Hx|]. split; [exact Q_nil|]. right. eauto.
  - destruct (next_id sdr =? 0xffff) eqn:E.
    + inversion H; subst. exists [], []. split; [apply logs_refl|]. auto.
    + destruct (Hfetch rsv (next_id sdr) s) as (tr & Ht & HQ).
      { unfold bind at 1 2 in H.
        destruct (get_device_sdr fuel (next_id sdr) (Some rsv) s) as [[sdr'|e|] s1];
          exact H. }
      exists [], tr. auto.
  - inversion H; subst. exists [], []. split; [apply logs_refl|]. auto.
Qed.

End Closure.

Lemma chunk_trace_same_chunk (req : GetDeviceSdrReq.t) (retry : Z) (tr : list event)
  (r : result (Z * list byte)) :
  chunk_trace req retry tr r -> Forall (same_chunk req) (chunk_requests tr).
Proof.
  induction 1; cbn [chunk_requests]; repeat constructor;
    try apply same_chunk_refl; assumption.
Qed.

(** X2.  No [GetDeviceSdr] request of a call of [get_device_sdr] asks for
    more than 20 bytes, however the call ends. *)
Theorem get_device_sdr_asks_for_at_most_20_bytes (fuel : nat) (record_id : Z)
  (reservation_id : option Z) (s s' : state) (r : result (Sdr Body)) :
  get_device_sdr fuel record_id reservation_id s = (r, s') ->
  exists tr,
    trace s' = trace s ++ tr
    /\ Forall (fun q => GetDeviceSdrReq.length q <= 20) (chunk_requests tr).
Proof.
  intros H.
  apply (get_device_sdr_closure
           (fun tr => Forall (fun q => GetDeviceSdrReq.length q <= 20) (chunk_requests tr)))
    in H.
  - destruct H as (tr0 & tr & Ht & HQ & Hshape). exists (tr0 ++ tr).
    split; [exact Ht|]. rewrite chunk_requests_app. apply Forall_app. split; [|exact HQ].
    destruct reservation_id; [subst; constructor|].
    destruct Hshape as (x & ->). constructor.
  - constructor.
  - intros a b Ha Hb. rewrite chunk_requests_app. apply Forall_app. auto.
  - intros req tr r0 Hlen Hct. apply chunk_trace_same_chunk in Hct.
    eapply Forall_impl; [|exact Hct]. intros q (_ & _ & Hl). cbv beta. lia.
Qed.

(** X3.  In the log of an enumeration, however it ends, the reservation
    requests are one more than the "reservation canceled" answers: the one
    that opens the enumeration, and one after each such answer. *)
Theorem device_sdr_entries_reserves_once_and_per_cancellation (fuel : nat)
  (reservation_id : option Z) (s s' : state) (r : result (list (Sdr Body))) :
  get_device_sdr_list (S fuel) reservation_id s = (r, s') ->
  exists tr,
    trace s' = trace s ++ tr
    /\ reservations tr = S (cancellations tr).
Proof.
  unfold get_device_sdr_list. intros H.
  apply (list_of_generator_closure (fun tr => reservations tr = cancellations tr)) in H.
  - destruct H as (tr0 & tr & Ht & HQ & [[Hn _]|(x & ->)]); [discriminate|].
    exists ([Exchange ReserveDeviceSdrRepository x] ++ tr). split; [exact Ht|].
    cbn [app reservations cancellations]. congruence.
  - reflexivity.
  - intros a b Ha Hb. rewrite reservations_app, cancellations_app. congruence.
  - intros req tr r0 _ Hct. eapply chunk_trace_reservations; eauto.
Qed.

(** ** Before the loop *)

(** X4.  The header fetch stands outside the [try] statement: whatever it
    raises, a [CompletionCodeError] of any code included, leaves
    [get_device_sdr] as it is, with nothing more sent and [max_req_len] not
    touched. *)
Theorem get_device_sdr_header_fetch_raises (fuel : nat) (record_id : Z)
  (reservation_id : option Z) (s s0 s1 : state) (rsv : Z) (e : exc) :
  match reservation_id with
  | None => reserve_device_sdr_repository
  | Some v => ret v
  end s = (Ok rsv, s0) ->
  _get_device_sdr_chunk rsv record_id 0 5 s0 = (Raise e, s1) ->
  get_device_sdr fuel record_id reservation_id s = (Raise e, s1)
  /\ max_req_len s1 = max_req_len s.
Proof.
  intros Ha Hc. split.
  - unfold get_device_sdr. unfold bind at 1. rewrite Ha. unfold bind at 1. rewrite Hc.
    reflexivity.
  - apply acquire_inv in Ha. destruct Ha as (t0 & [M0 _] & _).
    apply get_device_sdr_chunk_spec in Hc. destruct Hc as (x & t1 & [M1 _] & _).
    congruence.
Qed.

(** X5.  A header fetch that returns fewer than five bytes makes
    [get_device_sdr] raise [DecodingError]; the loop is not entered, nothing
    more is sent and [max_req_len] is not touched. *)
Theorem get_device_sdr_short_header (fuel : nat) (record_id : Z)
  (reservation_id : option Z) (s s0 s1 : state) (rsv nid : Z) (data : list byte) :
  match reservation_id with
  | None => reserve_device_sdr_repository
  | Some v => ret v
  end s = (Ok rsv, s0) ->
  _get_device_sdr_chunk rsv record_id 0 5 s0 = (Ok (nid, data), s1) ->
  len data < 5 ->
  get_device_sdr fuel record_id reservation_id s = (Raise DecodingError, s1)
  /\ max_req_len s1 = max_req_len s.
Proof.
  intros Ha Hc Hlen. split.
  - unfold get_device_sdr. unfold bind at 1. rewrite Ha. unfold bind at 1. rewrite Hc.
    unfold len in Hlen.
    destruct data as [|b0 [|b1 [|b2 [|b3 [|b4 rest]]]]]; try reflexivity.
    cbn [List.length] in Hlen. lia.
  - apply acquire_inv in Ha. destruct Ha as (t0 & [M0 _] & _).
    apply get_device_sdr_chunk_spec in Hc. destruct Hc as (x & t1 & [M1 _] & _).
    congruence.
Qed.

(** ** In the loop *)

(** X6.  Past the header fetch, every [GetDeviceSdr] request of a call names
    the record id read from the first two bytes of the header, low byte
    first, whatever record id the call was given. *)
Theorem get_device_sdr_asks_for_the_header_record_id (fuel : nat) (record_id : Z)
  (reservation_id : option Z) (s s0 s1 s' : state) (rsv nid : Z)
  (b0 b1 b2 b3 b4 : byte) (rest : list byte) (r : result (Sdr Body)) :
  match reservation_id with
  | None => reserve_device_sdr_repository
  | Some v => ret v
  end s = (Ok rsv, s0) ->
  _get_device_sdr_chunk rsv record_id 0 5 s0
  = (Ok (nid, b0 :: b1 :: b2 :: b3 :: b4 :: rest), s1) ->
  get_device_sdr fuel record_id reservation_id s = (r, s') ->
  exists tr,
    trace s' = trace s1 ++ tr
    /\ Forall (fun q => GetDeviceSdrReq.record_id q
                       = Z.lor (byte_val b0) (Z.shiftl (byte_val b1) 8))
         (chunk_requests tr).
Proof.
  intros Ha Hc H.
  rewrite (get_device_sdr_run _ _ _ _ _ _ _ _ _ _ _ _ _ _ Ha Hc) in H.
  match type of H with
  | (let (_, _) := ?l in _) = _ => destruct l as [rl s2] eqn:El
  end.
  inversion H; subst s2. clear H.
  apply (get_device_sdr_loop_closure
           (fun tr => Forall (fun q => GetDeviceSdrReq.record_id q = header_record_id b0 b1)
                        (chunk_requests tr))) with (m := 20) in El;
    try reflexivity; try lia.
  - destruct El as (tr & Ht & HQ). exists tr. split; [exact Ht|exact HQ].
  - constructor.
  - intros a b Ha' Hb'. rewrite chunk_requests_app. apply Forall_app. auto.
  - intros offset length tr r0 _ Hct. apply chunk_trace_same_chunk in Hct.
    eapply Forall_impl; [|exact Hct]. intros q (Hrid & _). cbn in Hrid. congruence.
Qed.

Lemma get_device_sdr_loop_complete (fuel : nat) :
  forall (reservation_id record_id record_length retry nid : Z)
         (data record_data : list byte) (offset : Z) (s s' : state)
         (out : list byte) (nid' : Z),
    get_device_sdr_loop fuel reservation_id record_id record_length
      retry nid data record_data offset s = (Ok (out, nid'), s') ->
    record_length <= len out /\ exists more, out = record_data ++ more.
Proof.
  induction fuel as [|fuel IH];
    intros rsv rid L retry nid data buf off s s' out nid' H;
    cbn [get_device_sdr_loop] in H; [discriminate|].
  destruct (retry - 1 =? 0); [discriminate|].
  unfold bind at 1 in H. unfold get_max_req_len at 1 in H.
  destruct (max_req_len s) as [m|]; [|discriminate].
  unfold bind at 1 in H.
  match type of H with
  | context [get_device_sdr_try ?a ?b ?c ?d ?e ?f ?g s] =>
      destruct (get_device_sdr_try a b c d e f g s)
        as [[[[retry' nid1] data1]|e'|] s1]; try discriminate
  end.
  destruct (len (buf ++ data1) >=? L) eqn:E.
  - inversion H; subst. rewrite Z.geb_leb in E. apply Z.leb_le in E.
    split; [exact E|]. eauto.
  - apply IH in H. destruct H as (Hlen & more & ->). split; [exact Hlen|].
    exists (data1 ++ more). now rewrite app_assoc.
Qed.

(** X7.  A record [get_device_sdr] returns is never decoded from a buffer
    shorter than the header announces: the buffer begins with the bytes of the
    header fetch, the first successful fetch of the call, and has at least
    [payload length + 5] bytes, the payload length being the fifth of them. *)
Theorem get_device_sdr_returns_no_short_record (fuel : nat) (record_id : Z)
  (reservation_id : option Z) (s s' : state) (sdr : Sdr Body) :
  get_device_sdr fuel record_id reservation_id s = (Ok sdr, s') ->
  exists tr q0 r0 later more nid,
    trace s' = trace s ++ tr
    /\ successes tr = (q0, r0) :: later
    /\ let header := GetDeviceSdrRsp.record_data r0 in
       5 <= len header
       /\ create_sdr decode_body (header ++ more) nid = Ok sdr
       /\ byte_val (nth 4 header x00) + 5 <= len (header ++ more).
Proof.
  intros H. apply get_device_sdr_inv in H.
  destruct H as [(e & tr & E & _)|[(tr & E & _)|H]]; try discriminate.
  destruct H as (rsv & s0 & tr0 & nid & b0 & b1 & b2 & b3 & b4 & rest & s1 & x & tr1
                 & q0 & r0 & rl & H).
  cbv zeta in H.
  destruct H as (_ & [_ T0] & S0 & _ & _ & [_ T1] & S1 & _ & _ & Hd & Hl & Hr & _).
  destruct rl as [[out nid']|e|]; try discriminate.
  pose proof Hl as Hl'. apply get_device_sdr_loop_complete in Hl'.
  destruct Hl' as (Hlen & more & ->).
  apply get_device_sdr_loop_spec with (m := 20) in Hl; [|reflexivity].
  destruct Hl as (tr2 & _ & T2 & _).
  exists (tr0 ++ (Exchange (GetDeviceSdr (GetDeviceSdrReq.mk rsv record_id 0 5)) x :: tr1)
              ++ tr2), q0, r0, (successes tr2), more, nid'.
  split.
  { unfold logs in *. cbn [trace] in T2. rewrite T2, T1, T0, <- !app_assoc. reflexivity. }
  split; [rewrite !successes_app, S0, S1; reflexivity|].
  cbv zeta. rewrite <- Hd. split; [unfold len; cbn [List.length]; lia|].
  split; [symmetry; exact Hr|]. exact Hlen.
Qed.

(** ** The buffer, read off the log *)

(** A fetch that returns has added its bytes to what the log assembles; one
    that raises [CompletionCodeError] has added the bytes of the fetch that
    succeeded before it. *)
Lemma chunk_trace_assembled (req : GetDeviceSdrReq.t) (retry : Z) (tr : list event)
  (r : result (Z * list byte)) :
  chunk_trace req retry tr r ->
  forall (data : list byte) (rest : list event),
    (forall (nid : Z) (d : list byte),
        r = Ok (nid, d) -> assembled (tr ++ rest) data = d ++ assembled rest d)
    /\ (forall cc : Z,
          r = Raise (CompletionCodeError cc) ->
          assembled (tr ++ rest) data = data ++ assembled rest data).
Proof.
  induction 1; intros data rest; (split; [intros nid0 d0 E|intros cc0 E]);
    try discriminate;
    cbn [app assembled success_of raises_cc];
    repeat match goal with
           | H : ?a <> ?b |- context [?a =? ?b] =>
               replace (a =? b) with false by (symmetry; apply Z.eqb_neq; exact H)
           | H : ?a = ?b |- context [?a =? ?b] =>
               replace (a =? b) with true by (symmetry; apply Z.eqb_eq; exact H)
           end;
    cbn [negb andb];
    try (eapply (proj1 (IHchunk_trace data rest)); exact E);
    try (eapply (proj2 (IHchunk_trace data rest)); exact E);
    try reflexivity.
  - inversion E; subst. reflexivity.
  - inversion E; subst. reflexivity.
  - match goal with
    | Hx : match x with inl _ => _ | inr _ => _ end |- _ =>
        destruct x as [e'|rr]; [subst e'|destruct Hx as [Hne _]]
    end.
    + inversion E; subst. reflexivity.
    + apply Z.eqb_neq in Hne. rewrite Hne. reflexivity.
Qed.

(** The [try] statement of the loop: when what follows it is reached, the
    bytes in [data] are what the log of the statement adds. *)
Lemma get_device_sdr_try_assembled (reservation_id record_id offset length retry nid : Z)
  (data data1 : list byte) (retry1 nid1 : Z) (s s1 : state) (m : Z) :
  max_req_len s = Some m ->
  get_device_sdr_try reservation_id record_id offset length retry nid data s
  = (Ok (retry1, nid1, data1), s1) ->
  exists tr m1,
    logs s s1 tr /\ max_req_len s1 = Some m1
    /\ forall rest : list event,
        assembled (tr ++ rest) data = data1 ++ assembled rest data1.
Proof.
  intros Hm H. unfold get_device_sdr_try, try_except_cc in H.
  unfold bind at 1 in H.
  destruct (_get_device_sdr_chunk reservation_id record_id offset length s)
    as [rc s0] eqn:Ec.
  apply get_device_sdr_chunk_trace in Ec. destruct Ec as (tr & [Hm0 Ht] & Hct).
  rewrite Hm in Hm0.
  pose proof (chunk_trace_assembled _ _ _ _ Hct data) as Hasm.
  destruct rc as [[n0 d0]|e|]; [|destruct e as [|cc| | | | |]|]; try discriminate.
  - inversion H; subst. exists tr, m. split; [exact Ht|]. split; [exact Hm0|].
    intros rest. exact (proj1 (Hasm rest) _ _ eq_refl).
  - destruct (cc =? CC_CANT_RET_NUM_REQ_BYTES); [|discriminate].
    unfold bind, get_max_req_len, set_max_req_len in H. rewrite Hm0 in H. cbn in H.
    exists tr, (m - 4).
    assert (Hd : data1 = data /\ logs s s1 tr /\ max_req_len s1 = Some (m - 4)).
    { destruct (m - 4 <=? 0); inversion H; subst; cbn; auto. }
    destruct Hd as (-> & Ht1 & Hm1). split; [exact Ht1|]. split; [exact Hm1|].
    intros rest. exact (proj2 (Hasm rest) _ eq_refl).
Qed.

Lemma get_device_sdr_loop_assembled (fuel : nat) :
  forall (reservation_id record_id record_length retry nid : Z)
         (data record_data : list byte) (offset : Z) (s s' : state)
         (buffer : list byte) (nid' : Z) (m : Z),
    max_req_len s = Some m ->
    get_device_sdr_loop fuel reservation_id record_id record_length
      retry nid data record_data offset s = (Ok (buffer, nid'), s') ->
    exists tr, logs s s' tr /\ buffer = record_data ++ assembled tr data.
Proof.
  induction fuel as [|fuel IH];
    intros rsv rid L retry nid data buf off s s' buffer nid' m Hm H;
    cbn [get_device_sdr_loop] in H; [discriminate|].
  destruct (retry - 1 =? 0); [discriminate|].
  unfold bind at 1 in H. unfold get_max_req_len at 1 in H. rewrite Hm in H.
  unfold bind at 1 in H.
  match type of H with
  | context [get_device_sdr_try ?a ?b ?c ?d ?e ?f ?g s] =>
      destruct (get_device_sdr_try a b c d e f g s) as [rt s1] eqn:Et
  end.
  destruct rt as [[[retry1 nid1] data1]|e|]; try discriminate.
  apply (get_device_sdr_try_assembled _ _ _ _ _ _ _ _ _ _ _ _ m Hm) in Et.
  destruct Et as (tr1 & m1 & Ht1 & Hm1 & Hasm).
  destruct (len (buf ++ data1) >=? L).
  - inversion H; subst. exists tr1. split; [exact Ht1|].
    rewrite <- (app_nil_r tr1), Hasm. cbn [assembled]. rewrite app_nil_r. reflexivity.
  - apply (IH _ _ _ _ _ _ _ _ _ _ _ _ m1 Hm1) in H. destruct H as (tr2 & Ht2 & ->).
    exists (tr1 ++ tr2). split; [eapply logs_trans; eauto|].
    rewrite Hasm, app_assoc. reflexivity.
Qed.

(** X8.  The buffer [get_device_sdr] hands to the decoder can be read off the
    log of the call.  It holds the bytes of every fetch that was answered with
    success, in the order of the answers, and for every fetch that raised
    [CompletionCodeError] (the call returns only if the code was "cannot
    return requested number of bytes") the bytes of the last fetch that had
    succeeded before it, a second time: the [except] branch goes on to the
    statement that appends [data]. *)
Theorem get_device_sdr_appends_the_last_fetch_again (fuel : nat) (record_id : Z)
  (reservation_id : option Z) (s s' : state) (sdr : Sdr Body) :
  get_device_sdr fuel record_id reservation_id s = (Ok sdr, s') ->
  exists tr nid,
    trace s' = trace s ++ tr
    /\ create_sdr decode_body (assembled tr []) nid = Ok sdr.
Proof.
  intros H.
  assert (Ha : exists ra s0 tr0,
             match reservation_id with
             | None => reserve_device_sdr_repository
             | Some v => ret v
             end s = (ra, s0)
             /\ logs s s0 tr0
             /\ (forall v, ra = Ok v ->
                 forall rest data, assembled (tr0 ++ rest) data = assembled rest data)).
  { destruct reservation_id as [v|].
    - exists (Ok v), s, []. repeat split. apply logs_refl.
    - destruct (reserve_device_sdr_repository s) as [ra s0] eqn:Er.
      pose proof Er as Er'. apply reserve_cases in Er'.
      destruct Er' as (x & [_ Hx] & Hra).
      exists ra, s0, [Exchange ReserveDeviceSdrRepository x].
      split; [reflexivity|]. split; [exact Hx|].
      intros v Hok rest data. destruct x as [e'|rr].
      + rewrite Hra in Hok. discriminate.
      + cbn [app assembled success_of raises_cc].
        destruct (ReserveDeviceSdrRepositoryRsp.completion_code rr =? 0) eqn:Ez;
          [reflexivity|].
        rewrite Hra in Hok. discriminate. }
  destruct Ha as (ra & s0 & tr0 & Ea & Ht0 & Hsilent).
  pose proof H as Hcall.
  unfold get_device_sdr in H. unfold bind at 1 in H. rewrite Ea in H.
  destruct ra as [rsv|e|]; try discriminate.
  unfold bind at 1 in H.
  destruct (_get_device_sdr_chunk rsv record_id 0 5 s0) as [rc s1] eqn:Ec.
  pose proof Ec as Ec'. apply get_device_sdr_chunk_trace in Ec'.
  destruct Ec' as (tr1 & [_ Ht1] & Hct).
  destruct rc as [[nid data]|e|]; try discriminate.
  pose proof (chunk_trace_assembled _ _ _ _ Hct []) as Hasm.
  destruct data as [|b0 [|b1 [|b2 [|b3 [|b4 rest]]]]]; try discriminate.
  clear H.
  rewrite (get_device_sdr_run fuel record_id reservation_id s s0 s1 rsv nid
             b0 b1 b2 b3 b4 rest Ea Ec) in Hcall.
  match type of Hcall with
  | (let (_, _) := ?l in _) = _ => destruct l as [rl s2] eqn:El
  end.
  inversion Hcall as [[Hd Hs]]. subst s2. clear Hcall.
  destruct rl as [[buffer nid']|e|]; try discriminate. cbn [decoded] in Hd.
  apply get_device_sdr_loop_assembled with (m := 20) in El; [|reflexivity].
  destruct El as (tr2 & Ht2 & ->).
  exists (tr0 ++ tr1 ++ tr2), nid'. split.
  { unfold logs in *. cbn [trace] in Ht2. rewrite Ht2, Ht1, Ht0, <- !app_assoc.
    reflexivity. }
  rewrite (Hsilent _ eq_refl).
  rewrite (proj1 (Hasm tr2) _ _ eq_refl). reflexivity.
Qed.

(** ** The budget of the loop *)

Section EmptyFetches.
(** The states of the transport in which every fetch of bytes past the
    header of record [starved] returns, but without bytes. *)
Variable Starved : W -> Prop.
Variable starved : Z.
Hypothesis fetch_empty :
  forall (s : state) (rsv offset length : Z),
    Starved (world s) -> 5 <= offset ->
    exists nid s',
      _get_device_sdr_chunk rsv starved offset length s = (Ok (nid, []), s')
      /\ Starved (world s').

Lemma get_device_sdr_loop_starves (fuel : nat) :
  forall (rsv L retry nid : Z) (data buf : list byte) (s : state) (m : Z),
    Starved (world s) -> max_req_len s = Some m -> 5 <= len buf < L ->
    1 <= retry <= Z.of_nat fuel ->
    exists s' tr,
      get_device_sdr_loop fuel rsv starved L retry nid data buf (len buf) s
      = (Raise RetryError, s')
      /\ logs s s' tr
      /\ len (successes tr) = retry - 1.
Proof.
  induction fuel as [|fuel IH]; intros rsv L retry nid data buf s m Hst Hm Hbuf Hr;
    [lia|].
  cbn [get_device_sdr_loop].
  destruct (retry - 1 =? 0) eqn:E0.
  { apply Z.eqb_eq in E0. exists s, []. split; [reflexivity|].
    split; [apply logs_refl|]. unfold len. cbn. lia. }
  apply Z.eqb_neq in E0.
  unfold bind at 1. unfold get_max_req_len at 1. rewrite Hm.
  unfold bind at 1. unfold get_device_sdr_try, try_except_cc. unfold bind at 1.
  match goal with
  | |- context [_get_device_sdr_chunk ?a starved ?c ?d s] =>
      destruct (fetch_empty s a c d Hst ltac:(lia)) as (n1 & s1 & Ec & Hst1)
  end.
  rewrite Ec. unfold ret at 1.
  pose proof Ec as Ec'. apply get_device_sdr_chunk_spec in Ec'.
  destruct Ec' as (x & tr' & [Hm1 Ht1] & [_ Hpost] & _).
  destruct Hpost as (q & rsp & Hs1 & _).
  rewrite app_nil_r.
  destruct (len buf >=? L) eqn:E; [rewrite Z.geb_leb in E; apply Z.leb_le in E; lia|].
  destruct (IH rsv L (retry - 1) n1 [] buf s1 m Hst1 ltac:(congruence) Hbuf
              ltac:(lia)) as (s' & tr2 & Hrun & Ht2 & Hn).
  exists s', ((Exchange _ x :: tr') ++ tr2). split; [exact Hrun|].
  split; [eapply logs_trans; eauto|].
  rewrite successes_app, Hs1. unfold len in *. cbn [app List.length]. lia.
Qed.

(** X9.  The loop has a budget of its own: when the header fetch leaves the
    record incomplete and every fetch after it returns without bytes,
    [get_device_sdr] raises [RetryError] after 19 such fetches. *)
Theorem get_device_sdr_gives_up_after_19_fetches (fuel : nat) (record_id : Z)
  (reservation_id : option Z) (s s0 s1 : state) (rsv nid : Z)
  (b0 b1 b2 b3 b4 : byte) (rest : list byte) :
  match reservation_id with
  | None => reserve_device_sdr_repository
  | Some v => ret v
  end s = (Ok rsv, s0) ->
  _get_device_sdr_chunk rsv record_id 0 5 s0
  = (Ok (nid, b0 :: b1 :: b2 :: b3 :: b4 :: rest), s1) ->
  header_record_id b0 b1 = starved ->
  len (b0 :: b1 :: b2 :: b3 :: b4 :: rest) < byte_val b4 + 5 ->
  Starved (world s1) ->
  (20 <= fuel)%nat ->
  exists s' tr,
    get_device_sdr fuel record_id reservation_id s = (Raise RetryError, s')
    /\ trace s' = trace s1 ++ tr
    /\ List.length (successes tr) = 19%nat.
Proof.
  intros Ha Hc Hid Hlen Hst Hfuel.
  rewrite (get_device_sdr_run _ _ _ _ _ _ _ _ _ _ _ _ _ _ Ha Hc). rewrite Hid.
  destruct (get_device_sdr_loop_starves fuel rsv
              (header_record_length b4) 20 nid
              (b0 :: b1 :: b2 :: b3 :: b4 :: rest) (b0 :: b1 :: b2 :: b3 :: b4 :: rest)
              (mkState (world s1) (Some 20) (trace s1)) 20 Hst eq_refl)
    as (s' & tr & Hrun & Ht & Hn); try lia.
  { split; [|exact Hlen]. unfold len. cbn [List.length]. lia. }
  rewrite Hrun. exists s', tr. split; [reflexivity|]. split; [exact Ht|].
  unfold len in Hn. lia.
Qed.

End EmptyFetches.

(** ** The answers of the controller to one chunk fetch *)

(** X10.  A completion code that is neither success nor one of the three the
    fetch tries again on ends the fetch at once: [CompletionCodeError] with
    that code after a single request, without a delay. *)
Theorem get_device_sdr_chunk_does_not_retry_other_codes
  (reservation_id record_id offset length : Z) (s : state)
  (rsp : GetDeviceSdrRsp.t) (w' : W) :
  let req := GetDeviceSdrReq.mk reservation_id record_id offset length in
  let cc := GetDeviceSdrRsp.completion_code rsp in
  send_message (GetDeviceSdr req) (world s) = (inr rsp, w') ->
  cc <> 0 -> cc <> CC_RES_CANCELED -> cc <> CC_TIMEOUT -> cc <> CC_RESP_COULD_NOT_BE_PRV ->
  _get_device_sdr_chunk reservation_id record_id offset length s
  = (Raise (CompletionCodeError cc),
     mkState w' (max_req_len s) (trace s ++ [Exchange (GetDeviceSdr req) (inr rsp)])).
Proof.
  intros req cc Hs H0 H1 H2 H3. unfold _get_device_sdr_chunk. fold req.
  cbn [get_device_sdr_chunk_loop]. change (5 - 1 =? 0) with false. cbv iota.
  unfold bind at 1. unfold send. rewrite Hs. fold cc.
  apply Z.eqb_neq in H0, H1, H2, H3. rewrite H0, H1, H2, H3.
  unfold bind, check_completion_code. rewrite H0. reflexivity.
Qed.

(** X11.  An answer "reservation canceled" is made good within the fetch: a
    new reservation is asked for, the fetch sleeps 100 ms and sends the
    request again under the reservation it was granted; if that is answered
    with success, the fetch returns what the answer carries. *)
Theorem get_device_sdr_chunk_renews_the_reservation
  (reservation_id record_id offset length : Z) (s : state)
  (rsp1 rsp2 : GetDeviceSdrRsp.t) (rr : ReserveDeviceSdrRepositoryRsp.t) (w1 w2 w3 : W) :
  let req := GetDeviceSdrReq.mk reservation_id record_id offset length in
  let req' :=
    GetDeviceSdrReq.mk (ReserveDeviceSdrRepositoryRsp.reservation_id rr)
      record_id offset length in
  send_message (GetDeviceSdr req) (world s) = (inr rsp1, w1) ->
  GetDeviceSdrRsp.completion_code rsp1 = CC_RES_CANCELED ->
  CC_RES_CANCELED <> 0 ->
  send_message ReserveDeviceSdrRepository w1 = (inr rr, w2) ->
  ReserveDeviceSdrRepositoryRsp.completion_code rr = 0 ->
  send_message (GetDeviceSdr req') w2 = (inr rsp2, w3) ->
  GetDeviceSdrRsp.completion_code rsp2 = 0 ->
  _get_device_sdr_chunk reservation_id record_id offset length s
  = (Ok (GetDeviceSdrRsp.next_record_id rsp2, GetDeviceSdrRsp.record_data rsp2),
     mkState w3 (max_req_len s)
       (trace s ++ [Exchange (GetDeviceSdr req) (inr rsp1);
                    Exchange ReserveDeviceSdrRepository (inr rr);
                    Sleep 1;
                    Exchange (GetDeviceSdr req') (inr rsp2)])).
Proof.
  intros req req' Hs1 Hc1 Hnz Hsr Hcr Hs2 Hc2.
  unfold _get_device_sdr_chunk. fold req.
  cbn [get_device_sdr_chunk_loop]. change (5 - 1 =? 0) with false. cbv iota.
  unfold bind at 1. unfold send at 1. rewrite Hs1. rewrite Hc1.
  apply Z.eqb_neq in Hnz. rewrite Hnz, Z.eqb_refl.
  unfold bind at 1. unfold reserve_device_sdr_repository, bind at 1, send at 1.
  cbn [world]. rewrite Hsr. unfold check_completion_code. rewrite Hcr.
  cbn [Z.eqb]. unfold bind, ret, sleep, log. cbn [world max_req_len trace].
  change (5 - 1 - 1 =? 0) with false. cbv iota.
  unfold send. cbn [world max_req_len trace].
  change (GetDeviceSdrReq.set_reservation_id req
            (ReserveDeviceSdrRepositoryRsp.reservation_id rr)) with req'.
  rewrite Hs2, Hc2. cbn [Z.eqb]. rewrite <- !app_assoc. reflexivity.
Qed.

Section Busy.
(** Every [GetDeviceSdr] request is answered "response could not be
    provided", a code of its own. *)
Hypothesis always_busy :
  forall (req : GetDeviceSdrReq.t) (w : W),
  exists rsp w',
    send_message (GetDeviceSdr req) w = (inr rsp, w')
    /\ GetDeviceSdrRsp.completion_code rsp = CC_RESP_COULD_NOT_BE_PRV.
Hypothesis busy_is_no_other_code :
  CC_RESP_COULD_NOT_BE_PRV <> 0
  /\ CC_RESP_COULD_NOT_BE_PRV <> CC_RES_CANCELED
  /\ CC_RESP_COULD_NOT_BE_PRV <> CC_TIMEOUT.

Lemma get_device_sdr_chunk_loop_backs_off (fuel : nat) :
  forall (req : GetDeviceSdrReq.t) (retry : Z) (s : state),
    1 <= retry <= Z.of_nat fuel ->
    exists s' tr,
      get_device_sdr_chunk_loop fuel req retry s = (Raise RetryError, s')
      /\ logs s s' tr
      /\ sleeps tr = map Z.of_nat (rev (seq 1 (Z.to_nat (retry - 1)))).
Proof.
  destruct busy_is_no_other_code as (B0 & B1 & B2).
  apply Z.eqb_neq in B0, B1, B2.
  induction fuel as [|fuel IH]; intros req retry s Hr; [lia|].
  cbn [get_device_sdr_chunk_loop].
  destruct (retry - 1 =? 0) eqn:E.
  { apply Z.eqb_eq in E. exists s, []. split; [reflexivity|].
    split; [apply logs_refl|]. rewrite E. reflexivity. }
  apply Z.eqb_neq in E.
  destruct (always_busy req (world s)) as (rsp & w' & Es & Hcc).
  unfold bind at 1. unfold send. rewrite Es. rewrite Hcc, B0, B1, B2, Z.eqb_refl.
  unfold bind at 1. unfold sleep, log. cbn [world max_req_len trace].
  match goal with
  | |- context [get_device_sdr_chunk_loop fuel req (retry - 1) ?st] =>
      destruct (IH req (retry - 1) st ltac:(lia)) as (s' & tr & Hrun & Ht & Hsl)
  end.
  exists s', ([Exchange (GetDeviceSdr req) (inr rsp); Sleep (retry - 1)] ++ tr).
  split; [exact Hrun|]. split.
  { unfold logs in *. cbn [trace] in Ht. rewrite Ht, <- !app_assoc. reflexivity. }
  rewrite sleeps_app, Hsl. cbn [sleeps app].
  replace (Z.to_nat (retry - 1)) with (S (Z.to_nat (retry - 1 - 1))) by lia.
  rewrite seq_S, rev_app_distr. cbn [rev app map]. f_equal. lia.
Qed.

(** X12.  On "response could not be provided" the fetch waits for as many
    tenths of a second as it has attempts left: 0.4 s, 0.3 s, 0.2 s and 0.1 s
    when every request is answered so, the waits growing shorter, and then it
    raises [RetryError]. *)
Theorem get_device_sdr_chunk_backs_off (reservation_id record_id offset length : Z)
  (s : state) :
  exists s' tr,
    _get_device_sdr_chunk reservation_id record_id offset length s
    = (Raise RetryError, s')
    /\ trace s' = trace s ++ tr
    /\ sleeps tr = [4; 3; 2; 1].
Proof.
  unfold _get_device_sdr_chunk.
  destruct (get_device_sdr_chunk_loop_backs_off 5
              (GetDeviceSdrReq.mk reservation_id record_id offset length) 5 s ltac:(lia))
    as (s' & tr & Hrun & Ht & Hsl).
  exists s', tr. split; [exact Hrun|]. split; [exact Ht|exact Hsl].
Qed.

End Busy.

(** ** The enumeration *)

(** X13.  When the reservation is refused, the enumeration raises
    [CompletionCodeError] with the code of the refusal before it has asked for
    any record; so does [get_device_sdr] when it is to reserve by itself. *)
Theorem device_sdr_entries_reservation_refused (fuel : nat) (record_id : Z)
  (reservation_id : option Z) (s : state) (rr : ReserveDeviceSdrRepositoryRsp.t) (w' : W) :
  let cc := ReserveDeviceSdrRepositoryRsp.completion_code rr in
  let s' := mkState w' (max_req_len s)
              (trace s ++ [Exchange ReserveDeviceSdrRepository (inr rr)]) in
  send_message ReserveDeviceSdrRepository (world s) = (inr rr, w') ->
  cc <> 0 ->
  get_device_sdr_list (S fuel) reservation_id s = (Raise (CompletionCodeError cc), s')
  /\ get_device_sdr fuel record_id None s = (Raise (CompletionCodeError cc), s').
Proof.
  intros cc s' Hs Hcc.
  assert (Hr : reserve_device_sdr_repository s = (Raise (CompletionCodeError cc), s')).
  { unfold reserve_device_sdr_repository, bind, send. rewrite Hs.
    unfold check_completion_code. fold cc. apply Z.eqb_neq in Hcc. rewrite Hcc.
    reflexivity. }
  split.
  - unfold get_device_sdr_list. cbn [list_of_generator device_sdr_entries_next].
    unfold bind at 1 2. rewrite Hr. reflexivity.
  - unfold get_device_sdr. unfold bind at 1. rewrite Hr. reflexivity.
Qed.

Section Cycle.
(** The states of the transport in which the chain of next record ids, from
    record 0 on, stays within [ids] and never comes to 0xFFFF. *)
Variable Looping : W -> Prop.
Variable ids : Z -> Prop.
Variable least : nat.
Hypothesis ids_start : ids 0.
Hypothesis reservation_granted :
  forall s : state,
    Looping (world s) ->
    exists rsv s0, reserve_device_sdr_repository s = (Ok rsv, s0) /\ Looping (world s0).
Hypothesis chain_goes_on :
  forall (fuel : nat) (s : state) (rsv rid : Z),
    (least <= fuel)%nat -> Looping (world s) -> ids rid ->
    exists sdr s',
      get_device_sdr fuel rid (Some rsv) s = (Ok sdr, s')
      /\ next_id sdr <> 0xffff /\ ids (next_id sdr) /\ Looping (world s').

Lemma list_of_generator_goes_round (n fuel : nat) :
  forall (rsv : Z) (sdr : Sdr Body) (acc : list (Sdr Body)) (s : state),
    (least <= fuel)%nat -> Looping (world s) ->
    next_id sdr <> 0xffff -> ids (next_id sdr) ->
    fst (list_of_generator n fuel (Suspended rsv sdr) acc s) = OutOfFuel.
Proof.
  induction n as [|n IH]; intros rsv sdr acc s Hfuel Hl Hnot Hin; [reflexivity|].
  cbn [list_of_generator device_sdr_entries_next].
  apply Z.eqb_neq in Hnot. rewrite Hnot.
  destruct (chain_goes_on fuel s rsv (next_id sdr) Hfuel Hl Hin)
    as (sdr' & s' & Hg & Hnot' & Hin' & Hl').
  unfold bind at 1 2. rewrite Hg. unfold ret at 1. apply IH; assumption.
Qed.

(** X14.  The enumeration ends on 0xFFFF only: on a chain of next record ids
    that never comes to 0xFFFF, one that leads back to a record it has been
    at, say, it goes round for ever and [get_device_sdr_list] does not
    return, whatever fuel it is given. *)
Theorem get_device_sdr_list_goes_round_a_cycle (fuel : nat) (reservation_id : option Z)
  (s : state) :
  (least <= fuel)%nat ->
  Looping (world s) ->
  fst (get_device_sdr_list fuel reservation_id s) = OutOfFuel.
Proof.
  intros Hfuel Hl. unfold get_device_sdr_list.
  destruct fuel as [|n] eqn:E; [reflexivity|]. rewrite <- E in *.
  rewrite E at 1. cbn [list_of_generator device_sdr_entries_next].
  destruct (reservation_granted s Hl) as (rsv & s0 & Hr & Hl0).
  unfold bind at 1 2. rewrite Hr. unfold bind at 1.
  destruct (chain_goes_on fuel s0 rsv 0 Hfuel Hl0 ids_start)
    as (sdr & s1 & Hg & Hnot & Hin & Hl1).
  rewrite Hg. unfold ret at 1. apply list_of_generator_goes_round; assumption.
Qed.

End Cycle.

(** ** Readings *)

Lemma lor_shiftl_bytes (a b : Z) :
  0 <= a < 256 -> 0 <= b < 256 ->
  Z.lor a (Z.shiftl b 8) = a + 256 * b.
Proof.
  intros Ha Hb.
  assert (Hland : Z.land a (Z.shiftl b 8) = 0).
  { apply Z.bits_inj'. intros n Hn. rewrite Z.land_spec, Z.bits_0.
    destruct (Z.lt_ge_cases n 8) as [Hlt|Hge].
    - rewrite (Z.shiftl_spec_low b 8 n Hlt). apply andb_false_r.
    - replace a with (a mod 2 ^ 8) by (apply Z.mod_small; lia).
      rewrite Z.mod_pow2_bits_high by lia. reflexivity. }
  pose proof (Z.add_lor_land a (Z.shiftl b 8)) as H. rewrite Hland in H.
  rewrite Z.shiftl_mul_pow2 in H by lia. change (2 ^ 8) with 256 in H.
  rewrite Z.shiftl_mul_pow2 by lia. change (2 ^ 8) with 256. lia.
Qed.

(** X15.  With both assertion-state bytes present, each a byte, the states
    [get_sensor_reading] returns are a 16-bit number with [states1] as its
    low byte and [states2] as its high byte: either byte can be read back
    from it. *)
Theorem get_sensor_reading_states_are_two_bytes (sensor_number lun : Z) (s : state)
  (rsp : GetSensorReadingRsp.t) (w' : W) (s1 s2 : Z) :
  send_message (GetSensorReading (GetSensorReadingReq.mk sensor_number lun)) (world s)
  = (inr rsp, w') ->
  GetSensorReadingRsp.completion_code rsp = 0 ->
  GetSensorReadingRsp.states1 rsp = Some s1 ->
  GetSensorReadingRsp.states2 rsp = Some s2 ->
  0 <= s1 < 256 -> 0 <= s2 < 256 ->
  exists reading states,
    fst (get_sensor_reading sensor_number lun s) = Ok (reading, Some states)
    /\ 0 <= states < 65536
    /\ Z.land states 0xff = s1
    /\ Z.shiftr states 8 = s2.
Proof.
  intros Hsend Hcc H1 H2 B1 B2.
  pose proof (get_sensor_reading_states sensor_number lun s rsp w' Hsend Hcc) as H.
  cbv zeta in H. rewrite H1, H2 in H.
  eexists _, _. split; [exact H|].
  rewrite (lor_shiftl_bytes s1 s2 B1 B2).
  split; [lia|]. split.
  - change 0xff with (Z.ones 8). rewrite Z.land_ones by lia.
    change (2 ^ 8) with 256. rewrite Z.mul_comm, Z.mod_add by lia.
    apply Z.mod_small. lia.
  - rewrite Z.shiftr_div_pow2 by lia. change (2 ^ 8) with 256.
    rewrite Z.mul_comm, Z.div_add by lia. rewrite Z.div_small by lia. lia.
Qed.

(** X16.  [get_sensor_reading] sends one request, with the sensor number and
    the lun it was given, and looks at the completion code before anything
    else: a code other than success raises [CompletionCodeError] with that
    code, whatever reading and states the response carries. *)
Theorem get_sensor_reading_checks_completion_code_first (sensor_number lun : Z)
  (s : state) (rsp : GetSensorReadingRsp.t) (w' : W) :
  let req := GetSensorReading (GetSensorReadingReq.mk sensor_number lun) in
  send_message req (world s) = (inr rsp, w') ->
  GetSensorReadingRsp.completion_code rsp <> 0 ->
  get_sensor_reading sensor_number lun s
  = (Raise (CompletionCodeError (GetSensorReadingRsp.completion_code rsp)),
     mkState w' (max_req_len s) (trace s ++ [Exchange req (inr rsp)])).
Proof.
  intros req Hsend Hcc. unfold get_sensor_reading, bind, send. fold req.
  rewrite Hsend. unfold check_completion_code. apply Z.eqb_neq in Hcc. rewrite Hcc.
  reflexivity.
Qed.

End Further.

(** ** Thresholds *)

Section Thresholds.
Context {P : Platform} {T : SensorTransport}.

Lemma getitem_setitem (d : dict) (key key' : string) (value : Z) :
  getitem (setitem d key value) key'
  = if String.eqb key key' then Some value else getitem d key'.
Proof.
  induction d as [|[k v] d IH]; cbn [setitem getitem]; [reflexivity|].
  destruct (String.eqb_spec k key) as [->|Hk]; cbn [getitem].
  - destruct (String.eqb key key'); reflexivity.
  - rewrite IH. destruct (String.eqb_spec k key') as [->|Hk']; [|reflexivity].
    destruct (String.eqb_spec key key') as [->|_]; [congruence|reflexivity].
Qed.

Lemma getitem_thresholds_of (rsp : GetSensorThresholdsRsp.t) (name : string) :
  getitem (thresholds_of rsp) name
  = match threshold_named (GetSensorThresholdsRsp.readable_mask rsp) name,
          threshold_named (GetSensorThresholdsRsp.threshold rsp) name with
    | Some bit, Some value => if truthy bit then Some value else None
    | _, _ => None
    end.
Proof.
  unfold thresholds_of, threshold_named.
  destruct (String.eqb_spec name "unr") as [->|N1];
    [|destruct (String.eqb_spec name "ucr") as [->|N2];
      [|destruct (String.eqb_spec name "unc") as [->|N3];
        [|destruct (String.eqb_spec name "lnc") as [->|N4];
          [|destruct (String.eqb_spec name "lcr") as [->|N5];
            [|destruct (String.eqb_spec name "lnr") as [->|N6]]]]]];
  destruct (truthy (Thresholds.unr (GetSensorThresholdsRsp.readable_mask rsp)));
  destruct (truthy (Thresholds.ucr (GetSensorThresholdsRsp.readable_mask rsp)));
  destruct (truthy (Thresholds.unc (GetSensorThresholdsRsp.readable_mask rsp)));
  destruct (truthy (Thresholds.lnc (GetSensorThresholdsRsp.readable_mask rsp)));
  destruct (truthy (Thresholds.lcr (GetSensorThresholdsRsp.readable_mask rsp)));
  destruct (truthy (Thresholds.lnr (GetSensorThresholdsRsp.readable_mask rsp)));
  rewrite ?getitem_setitem; cbn [getitem]; try reflexivity;
  repeat match goal with
         | |- context [String.eqb ?k name] =>
             replace (String.eqb k name) with false
               by (symmetry; apply String.eqb_neq; congruence)
         end; reflexivity.
Qed.

Lemma keys_thresholds_of_NoDup (rsp : GetSensorThresholdsRsp.t) :
  NoDup (keys (thresholds_of rsp)).
Proof.
  unfold thresholds_of.
  destruct (truthy (Thresholds.unr (GetSensorThresholdsRsp.readable_mask rsp)));
  destruct (truthy (Thresholds.ucr (GetSensorThresholdsRsp.readable_mask rsp)));
  destruct (truthy (Thresholds.unc (GetSensorThresholdsRsp.readable_mask rsp)));
  destruct (truthy (Thresholds.lnc (GetSensorThresholdsRsp.readable_mask rsp)));
  destruct (truthy (Thresholds.lcr (GetSensorThresholdsRsp.readable_mask rsp)));
  destruct (truthy (Thresholds.lnr (GetSensorThresholdsRsp.readable_mask rsp)));
  cbn; repeat constructor; cbn; intuition discriminate.
Qed.

(** X17.  The dict [get_sensor_thresholds] returns has a key for each of the
    six thresholds whose readable bit is set, with the value of that threshold
    in the response, and no other key; no key is there twice. *)
Theorem get_sensor_thresholds_readable_only (sensor_number lun : Z) (s : state)
  (rsp : GetSensorThresholdsRsp.t) (w' : W) :
  send_get_sensor_thresholds (GetSensorThresholdsReq.mk sensor_number lun) (world s)
  = (inr rsp, w') ->
  GetSensorThresholdsRsp.completion_code rsp = 0 ->
  exists d,
    fst (get_sensor_thresholds sensor_number lun s) = Ok d
    /\ NoDup (keys d)
    /\ forall name : string,
        getitem d name
        = match threshold_named (GetSensorThresholdsRsp.readable_mask rsp) name,
                threshold_named (GetSensorThresholdsRsp.threshold rsp) name with
          | Some bit, Some value => if truthy bit then Some value else None
          | _, _ => None
          end.
Proof.
  intros Hsend Hcc. exists (thresholds_of rsp). split.
  - unfold get_sensor_thresholds, bind, send_to. rewrite Hsend.
    unfold check_completion_code. rewrite Hcc. reflexivity.
  - split; [apply keys_thresholds_of_NoDup|]. intros name. apply getitem_thresholds_of.
Qed.

(** X18.  What [set_sensor_thresholds] writes, [get_sensor_thresholds] reads
    back: from a response whose readable mask and values are the set mask and
    the values of the request [set_sensor_thresholds] builds, on a fresh
    request with no set bit, the dict has exactly the thresholds the caller
    supplied, each with the value supplied. *)
Theorem get_sensor_thresholds_reads_back_what_was_set (sensor_number lun : Z)
  (unr ucr unc lnc lcr lnr : option Z) (s : state)
  (rsp : GetSensorThresholdsRsp.t) (w' : W) :
  let req := set_sensor_thresholds_request sensor_number lun unr ucr unc lnc lcr lnr in
  fresh_set_mask = Thresholds.zero ->
  send_get_sensor_thresholds (GetSensorThresholdsReq.mk sensor_number lun) (world s)
  = (inr rsp, w') ->
  GetSensorThresholdsRsp.completion_code rsp = 0 ->
  GetSensorThresholdsRsp.readable_mask rsp = SetSensorThresholdsReq.set_mask req ->
  GetSensorThresholdsRsp.threshold rsp = SetSensorThresholdsReq.threshold req ->
  exists d,
    fst (get_sensor_thresholds sensor_number lun s) = Ok d
    /\ forall name : string,
        getitem d name = supplied unr ucr unc lnc lcr lnr name.
Proof.
  intros req Hfresh Hsend Hcc Hmask Hval.
  destruct (get_sensor_thresholds_readable_only _ _ _ _ _ Hsend Hcc) as (d & Hd & _ & Hget).
  exists d. split; [exact Hd|]. intros name. rewrite Hget, Hmask, Hval.
  unfold req, set_sensor_thresholds_request, threshold_named, supplied. rewrite Hfresh.
  destruct (String.eqb name "unr"); [destruct unr, ucr, unc, lnc, lcr, lnr; reflexivity|].
  destruct (String.eqb name "ucr"); [destruct unr, ucr, unc, lnc, lcr, lnr; reflexivity|].
  destruct (String.eqb name "unc"); [destruct unr, ucr, unc, lnc, lcr, lnr; reflexivity|].
  destruct (String.eqb name "lnc"); [destruct unr, ucr, unc, lnc, lcr, lnr; reflexivity|].
  destruct (String.eqb name "lcr"); [destruct unr, ucr, unc, lnc, lcr, lnr; reflexivity|].
  destruct (String.eqb name "lnr"); [destruct unr, ucr, unc, lnc, lcr, lnr; reflexivity|].
  reflexivity.
Qed.

End Thresholds.

(** * The properties on the model controllers *)

(** ** One record *)



(** C2 on the code.  A controller that answers every request past the header
    with "cannot return requested number of bytes": the cap goes down by 4
    with each answer and past 0; requests of length 0 and of negative length
    are sent; and the call does not raise [RetryError] but returns a record of
    105 bytes, which are the header 21 times over. *)
Theorem get_device_sdr_shrinks_past_zero :
  let run :=
    get_device_sdr 30 0 (Some 1) (boot (past_header Ipmi.CC_CANT_RET_NUM_REQ_BYTES)) in
  map GetDeviceSdrReq.length (chunk_requests (trace (snd run)))
  = [5; 20; 16; 12; 8; 4; 0; -4; -8; -12; -16; -20; -24; -28; -32; -36;
     -40; -44; -48; -52; -56]
  /\ max_req_len (snd run) = Some (-60)
  /\ fst run
     = Ok (mkSdr (List.concat (repeat (firstn 5 (Controller.record 0 100)) 21)) 0xffff).
Proof. vm_compute. repeat split; reflexivity. Qed.

(** C4 on the code.  A controller that answers the first request past the
    header with "invalid command": the chunk fetch raises
    [CompletionCodeError] with that code, and what leaves [get_device_sdr] is
    the [NameError] of the name [Assert]. *)
Theorem get_device_sdr_other_code_raises_NameError :
  let s1 := snd (_get_device_sdr_chunk 1 0 0 5 (boot (past_header Ipmi.CC_INV_CMD))) in
  fst (_get_device_sdr_chunk 1 0 5 20 s1) = Raise (CompletionCodeError Ipmi.CC_INV_CMD)
  /\ fst (get_device_sdr 30 0 (Some 1) (boot (past_header Ipmi.CC_INV_CMD)))
     = Raise (NameError "Assert").
Proof. vm_compute. split; reflexivity. Qed.

(** On [silent] every request times out. *)
Lemma get_device_sdr_chunk_retry_budget_witness :
  exists s1 tr1 s2 tr2,
    _get_device_sdr_chunk 1 0 0 5 (boot silent) = (Raise RetryError, s1)
    /\ logs (boot silent) s1 tr1
    /\ List.length (chunk_requests tr1) = 4%nat
    /\ (List.length (chunk_requests tr1) <= 5)%nat
    /\ _get_device_sdr_chunk 1 0 0 5 s1 = (Raise RetryError, s2)
    /\ logs s1 s2 tr2
    /\ List.length (chunk_requests tr2) = 4%nat
    /\ (List.length (chunk_requests tr2) <= 5)%nat.
Proof.
  apply (get_device_sdr_chunk_retry_budget (P := platform_of silent)).
  - intros req w. eexists _, _. split; [reflexivity|].
    split; [discriminate|right; left; reflexivity].
  - intros w. eexists _, _. split; reflexivity.
Defined.

(** ** The cap from one record to the next *)

(** C5 is not what the code does.  Enumerating on [picky], the cap is 8 after
    the first record and 20 again after the second. *)
Lemma max_req_len_reset_between_records :
  exists y1 g1 s1 y2 g2 s2,
    device_sdr_entries_next 30 Created (boot picky) = (Ok (y1, g1), s1)
    /\ max_req_len s1 = Some 8
    /\ device_sdr_entries_next 30 g1 s1 = (Ok (y2, g2), s2)
    /\ max_req_len s2 = Some 20
    /\ 8 < 20.
Proof.
  eexists _, _, _, _, _, _.
  split; [vm_compute; reflexivity|]. split; [reflexivity|].
  split; [vm_compute; reflexivity|]. split; [reflexivity|]. lia.
Qed.

Lemma max_req_len_within_one_call_witness :
  let run := get_device_sdr 30 0 (Some 1) (boot picky) in
  (max_req_len (snd run) = max_req_len (boot picky) /\ exists e, fst run = Raise e)
  \/ exists (rsv rid len0 nid : Z) (data : list byte) (t : state)
            (rl : result (list byte * Z)) (m' : Z),
      max_req_len t = Some 20
      /\ get_device_sdr_loop 30 rsv rid len0 20 nid data data (len data) t
         = (rl, snd run)
      /\ max_req_len (snd run) = Some m' /\ m' <= 20.
Proof.
  intros run.
  apply (proj2 (max_req_len_within_one_call (P := platform_of picky)
                  30 0 (Some 1) (boot picky) (snd run) (fst run))).
  apply surjective_pairing.
Defined.

(** ** The enumeration *)



(** ** Sensor readings and thresholds *)

(** [states1 = 0x05] and [states2 = 0x01] give [0x0105]. *)
Lemma get_sensor_reading_states_witness :
  fst (get_sensor_reading 1 0
         (boot (reading_of (GetSensorReadingRsp.mk 0 7 0 (Some 0x05) (Some 0x01)))))
  = Ok (Some 7, Some 0x0105).
Proof.
  exact (get_sensor_reading_states
           (P := platform_of (reading_of (GetSensorReadingRsp.mk 0 7 0 (Some 0x05) (Some 0x01))))
           1 0 (boot _) (GetSensorReadingRsp.mk 0 7 0 (Some 0x05) (Some 0x01)) tt
           eq_refl eq_refl).
Defined.

(** C7 is not what the code does when [states1] is absent and [states2] is
    present: no states are returned, absent or other, the call raises
    [TypeError]. *)
Lemma get_sensor_reading_states2_alone :
  let rsp := GetSensorReadingRsp.mk 0 7 0 None (Some 0x01) in
  let r := fst (get_sensor_reading 1 0 (boot (reading_of rsp))) in
  GetSensorReadingRsp.states1 rsp = None
  /\ r = Raise TypeError
  /\ ~ exists reading, r = Ok (reading, None).
Proof.
  cbv zeta. split; [reflexivity|]. split; [reflexivity|].
  intros [reading H]. vm_compute in H. discriminate.
Qed.

(** [set_sensor_thresholds(sensor_number=1, ucr=80)] on a fresh request with
    nothing set: only the set bit of [ucr] is 1, and the value of [ucr] is 80. *)
Example set_sensor_thresholds_ucr_80 :
  set_sensor_thresholds_request (P := platform_of chained) 1 0
    None (Some 80) None None None None
  = SetSensorThresholdsReq.mk 1 0
      (Thresholds.mk 0 1 0 0 0 0) (Thresholds.mk 0 80 0 0 0 0).
Proof. reflexivity. Qed.

(** ** The next record id *)

Lemma get_device_sdr_next_id_of_last_fetch_witness :
  let run := get_device_sdr 30 2 (Some 1) (boot chained) in
  exists tr hdr later,
    logs (boot chained) (snd run) tr
    /\ successes tr = hdr :: later
    /\ GetDeviceSdrReq.offset (fst hdr) = 0
    /\ next_id (mkSdr (Controller.record 2 30) 0xffff)
       = GetDeviceSdrRsp.next_record_id (snd (last later hdr))
    /\ exists record_data,
        create_sdr (@decode_body (platform_of chained)) record_data
          (GetDeviceSdrRsp.next_record_id (snd (last later hdr)))
        = Ok (mkSdr (Controller.record 2 30) 0xffff).
Proof.
  intros run.
  apply (get_device_sdr_next_id_of_last_fetch (P := platform_of chained)
           30 2 (Some 1) (boot chained) (snd run)
           (mkSdr (Controller.record 2 30) 0xffff)).
  vm_compute. reflexivity.
Defined.

(** Record 0 of [chained] has no payload. *)
Lemma get_device_sdr_complete_header_fetches_again_witness :
  let s1 := snd (_get_device_sdr_chunk 1 0 0 5 (boot chained)) in
  let run := get_device_sdr 1 0 (Some 1) (boot chained) in
  exists req x tr,
    trace (snd run) = trace s1 ++ Exchange (GetDeviceSdr req) x :: tr
    /\ GetDeviceSdrReq.offset req = 5
    /\ GetDeviceSdrReq.length req = 0.
Proof.
  intros s1 run.
  apply (get_device_sdr_complete_header_fetches_again (P := platform_of chained)
           0 0 (Some 1) (boot chained) (boot chained) s1 (snd run) 1 1
           x00 x00 x51 x01 x00 (fst run)).
  - reflexivity.
  - vm_compute. reflexivity.
  - reflexivity.
  - apply surjective_pairing.
Defined.

(** * The further properties on the model controllers *)

(** ** One chunk fetch *)

Lemma get_device_sdr_chunk_sends_at_most_four_witness :
  let run := _get_device_sdr_chunk 1 0 0 5 (boot silent) in
  exists tr,
    trace (snd run) = trace (boot silent) ++ tr
    /\ fst run <> OutOfFuel
    /\ (List.length (chunk_requests tr) <= 4)%nat
    /\ Forall (same_chunk (GetDeviceSdrReq.mk 1 0 0 5)) (chunk_requests tr)
    /\ (reservations tr <= 4)%nat
    /\ (List.length (sleeps tr) <= 4)%nat.
Proof.
  intros run.
  apply (get_device_sdr_chunk_sends_at_most_four (P := platform_of silent)
           1 0 0 5 (boot silent) (snd run) (fst run)).
  apply surjective_pairing.
Defined.

Lemma get_device_sdr_chunk_does_not_retry_other_codes_witness :
  _get_device_sdr_chunk 1 0 0 5 (boot (answering Ipmi.CC_INV_CMD))
  = (Raise (CompletionCodeError Ipmi.CC_INV_CMD),
     mkState (P := platform_of (answering Ipmi.CC_INV_CMD)) tt None
       [Exchange (GetDeviceSdr (GetDeviceSdrReq.mk 1 0 0 5))
          (inr (GetDeviceSdrRsp.mk Ipmi.CC_INV_CMD 0xffff []))]).
Proof.
  apply (get_device_sdr_chunk_does_not_retry_other_codes
           (P := platform_of (answering Ipmi.CC_INV_CMD)) 1 0 0 5
           (boot (answering Ipmi.CC_INV_CMD))
           (GetDeviceSdrRsp.mk Ipmi.CC_INV_CMD 0xffff []) tt);
    [reflexivity|discriminate|discriminate|discriminate|discriminate].
Defined.

(** A fetch under the stale reservation 1 on [renewing]. *)
Lemma get_device_sdr_chunk_renews_the_reservation_witness :
  _get_device_sdr_chunk 1 0 0 5 (mkState (P := renewing) true None [])
  = (Ok (1, firstn 5 (Controller.record 0 0)),
     mkState (P := renewing) true None
       [Exchange (GetDeviceSdr (GetDeviceSdrReq.mk 1 0 0 5))
          (inr (GetDeviceSdrRsp.mk Ipmi.CC_RES_CANCELED 0xffff []));
        Exchange ReserveDeviceSdrRepository (inr (ReserveDeviceSdrRepositoryRsp.mk 0 2));
        Sleep 1;
        Exchange (GetDeviceSdr (GetDeviceSdrReq.mk 2 0 0 5))
          (inr (GetDeviceSdrRsp.mk 0 1 (firstn 5 (Controller.record 0 0))))]).
Proof.
  apply (get_device_sdr_chunk_renews_the_reservation (P := renewing) 1 0 0 5
           (mkState (P := renewing) true None [])
           (GetDeviceSdrRsp.mk Ipmi.CC_RES_CANCELED 0xffff [])
           (GetDeviceSdrRsp.mk 0 1 (firstn 5 (Controller.record 0 0)))
           (ReserveDeviceSdrRepositoryRsp.mk 0 2) true true true);
    try reflexivity. discriminate.
Defined.

Lemma get_device_sdr_chunk_backs_off_witness :
  exists s' tr,
    _get_device_sdr_chunk 1 0 0 5 (boot (answering Ipmi.CC_RESP_COULD_NOT_BE_PRV))
    = (Raise RetryError, s')
    /\ trace s' = trace (boot (answering Ipmi.CC_RESP_COULD_NOT_BE_PRV)) ++ tr
    /\ sleeps tr = [4; 3; 2; 1].
Proof.
  apply (get_device_sdr_chunk_backs_off
           (P := platform_of (answering Ipmi.CC_RESP_COULD_NOT_BE_PRV))).
  - intros req w. eexists _, _. split; reflexivity.
  - repeat split; discriminate.
Defined.

(** ** One record *)

(** On [answering] the header fetch itself fails with "cannot return
    requested number of bytes". *)
Lemma get_device_sdr_header_fetch_raises_witness :
  let c := answering Ipmi.CC_CANT_RET_NUM_REQ_BYTES in
  let s1 := snd (_get_device_sdr_chunk 1 0 0 5 (boot c)) in
  get_device_sdr 30 0 (Some 1) (boot c)
  = (Raise (CompletionCodeError Ipmi.CC_CANT_RET_NUM_REQ_BYTES), s1)
  /\ max_req_len s1 = max_req_len (boot c).
Proof.
  intros c s1.
  apply (get_device_sdr_header_fetch_raises (P := platform_of c)
           30 0 (Some 1) (boot c) (boot c) s1 1
           (CompletionCodeError Ipmi.CC_CANT_RET_NUM_REQ_BYTES));
    reflexivity.
Defined.

Lemma get_device_sdr_short_header_witness :
  let s1 := snd (_get_device_sdr_chunk 1 0 0 5 (boot stub)) in
  get_device_sdr 30 0 (Some 1) (boot stub) = (Raise DecodingError, s1)
  /\ max_req_len s1 = max_req_len (boot stub).
Proof.
  intros s1.
  apply (get_device_sdr_short_header (P := platform_of stub)
           30 0 (Some 1) (boot stub) (boot stub) s1 1 0xffff [x00; x00; x51]);
    reflexivity.
Defined.

(** Asked for record 0, [mislabelled] is asked for record 7 from then on. *)
Lemma get_device_sdr_asks_for_the_header_record_id_witness :
  let s1 := snd (_get_device_sdr_chunk 1 0 0 5 (boot mislabelled)) in
  let run := get_device_sdr 30 0 (Some 1) (boot mislabelled) in
  exists tr,
    trace (snd run) = trace s1 ++ tr
    /\ Forall (fun q => GetDeviceSdrReq.record_id q
                       = Z.lor (byte_val x07) (Z.shiftl (byte_val x00) 8))
         (chunk_requests tr).
Proof.
  intros s1 run.
  apply (get_device_sdr_asks_for_the_header_record_id (P := platform_of mislabelled)
           30 0 (Some 1) (boot mislabelled) (boot mislabelled) s1 (snd run) 1 0xffff
           x07 x00 x51 x01 x1e [] (fst run)).
  - reflexivity.
  - reflexivity.
  - apply surjective_pairing.
Defined.

Lemma get_device_sdr_asks_for_at_most_20_bytes_witness :
  let run :=
    get_device_sdr 30 0 (Some 1) (boot (past_header Ipmi.CC_CANT_RET_NUM_REQ_BYTES)) in
  exists tr,
    trace (snd run) = trace (boot (past_header Ipmi.CC_CANT_RET_NUM_REQ_BYTES)) ++ tr
    /\ Forall (fun q => GetDeviceSdrReq.length q <= 20) (chunk_requests tr).
Proof.
  intros run.
  apply (get_device_sdr_asks_for_at_most_20_bytes
           (P := platform_of (past_header Ipmi.CC_CANT_RET_NUM_REQ_BYTES))
           30 0 (Some 1) (boot _) (snd run) (fst run)).
  apply surjective_pairing.
Defined.

Lemma get_device_sdr_returns_no_short_record_witness :
  let run := get_device_sdr 30 2 (Some 1) (boot chained) in
  exists tr q0 r0 later more nid,
    trace (snd run) = trace (boot chained) ++ tr
    /\ successes tr = (q0, r0) :: later
    /\ let header := GetDeviceSdrRsp.record_data r0 in
       5 <= len header
       /\ create_sdr (@decode_body (platform_of chained)) (header ++ more) nid
          = Ok (mkSdr (Controller.record 2 30) 0xffff)
       /\ byte_val (nth 4 header x00) + 5 <= len (header ++ more).
Proof.
  intros run.
  apply (get_device_sdr_returns_no_short_record (P := platform_of chained)
           30 2 (Some 1) (boot chained) (snd run)
           (mkSdr (Controller.record 2 30) 0xffff)).
  vm_compute. reflexivity.
Defined.

(** Of record 0, [picky] refuses the requests for more than 8 bytes: three
    times after the header fetch (20, 16 and 12 bytes), so the record returned
    begins with the header four times over, and goes on with the bytes of the
    record from offset 20 on. *)
Lemma get_device_sdr_appends_the_last_fetch_again_witness :
  let run := get_device_sdr 30 0 (Some 1) (boot picky) in
  let header := firstn 5 (Controller.record 0 30) in
  let sdr := mkSdr (header ++ header ++ header ++ header
                      ++ skipn 20 (Controller.record 0 30)) 1 in
  fst run = Ok sdr
  /\ exists tr nid,
      trace (snd run) = trace (boot picky) ++ tr
      /\ create_sdr (@decode_body (platform_of picky))
           (assembled (P := platform_of picky) tr []) nid = Ok sdr.
Proof.
  intros run header sdr. split; [vm_compute; reflexivity|].
  apply (get_device_sdr_appends_the_last_fetch_again (P := platform_of picky)
           30 0 (Some 1) (boot picky) (snd run) sdr).
  vm_compute. reflexivity.
Defined.

Lemma get_device_sdr_gives_up_after_19_fetches_witness :
  let s1 := snd (_get_device_sdr_chunk 1 0 0 5 (boot hollow)) in
  exists s' tr,
    get_device_sdr 20 0 (Some 1) (boot hollow) = (Raise RetryError, s')
    /\ trace s' = trace s1 ++ tr
    /\ List.length (successes tr) = 19%nat.
Proof.
  intros s1.
  apply (get_device_sdr_gives_up_after_19_fetches (P := platform_of hollow)
           (fun _ => True) 0) with (rsv := 1) (s0 := boot hollow) (nid := 0xffff)
           (b0 := x00) (b1 := x00) (b2 := x51) (b3 := x01) (b4 := x0a) (rest := []).
  - intros s rsv offset length _ Hoff.
    eexists _, _. split; [|exact I].
    unfold _get_device_sdr_chunk. cbn [get_device_sdr_chunk_loop].
    change (5 - 1 =? 0) with false. cbv iota. unfold bind, send. cbn.
    unfold Controller.get_device_sdr_rsp. cbn.
    unfold slice. cbn [GetDeviceSdrReq.offset GetDeviceSdrReq.length].
    rewrite skipn_all2 by (cbn [List.length]; lia). rewrite firstn_nil. reflexivity.
  - reflexivity.
  - reflexivity.
  - reflexivity.
  - reflexivity.
  - exact I.
  - lia.
Defined.

(** ** The enumeration *)

(** On [renewing] every chunk fetch of the enumeration starts under the
    reservation that has gone stale. *)
Lemma device_sdr_entries_reserves_once_and_per_cancellation_witness :
  let s := mkState (P := renewing) false None [] in
  let run := get_device_sdr_list 30 None s in
  exists tr,
    trace (snd run) = trace s ++ tr
    /\ reservations tr = S (cancellations (P := renewing) tr).
Proof.
  intros s run.
  apply (device_sdr_entries_reserves_once_and_per_cancellation (P := renewing)
           29 None s (snd run) (fst run)).
  apply surjective_pairing.
Defined.

Lemma device_sdr_entries_reservation_refused_witness :
  let s := mkState (P := locked) tt None [] in
  let s' := mkState (P := locked) tt None
              [Exchange ReserveDeviceSdrRepository
                 (inr (ReserveDeviceSdrRepositoryRsp.mk 0xd5 0))] in
  get_device_sdr_list 30 None s = (Raise (CompletionCodeError 0xd5), s')
  /\ get_device_sdr 30 0 None s = (Raise (CompletionCodeError 0xd5), s').
Proof.
  intros s s'.
  apply (device_sdr_entries_reservation_refused (P := locked) 29 0 None s
           (ReserveDeviceSdrRepositoryRsp.mk 0xd5 0) tt);
    [reflexivity|discriminate].
Defined.

Lemma get_device_sdr_list_goes_round_a_cycle_witness :
  fst (get_device_sdr_list 30 None (boot ring)) = OutOfFuel.
Proof.
  apply (get_device_sdr_list_goes_round_a_cycle (P := platform_of ring)
           (fun _ => True) (fun rid => rid = 0) 1 eq_refl).
  - intros s _. eexists _, _. split; [reflexivity|exact I].
  - intros fuel s rsv rid Hfuel _ ->.
    destruct fuel as [|fuel]; [lia|].
    assert (E : fst (get_device_sdr (S fuel) 0 (Some rsv) s)
                = Ok (mkSdr (Controller.record 0 0) 0)) by (vm_compute; reflexivity).
    destruct (get_device_sdr (S fuel) 0 (Some rsv) s) as [r1 s1].
    cbn [fst] in E. subst r1.
    eexists _, _. split; [reflexivity|].
    split; [discriminate|]. split; [reflexivity|exact I].
  - lia.
  - exact I.
Defined.

(** ** Readings and thresholds *)

Lemma get_sensor_reading_states_are_two_bytes_witness :
  exists reading states,
    fst (get_sensor_reading 1 0
           (boot (reading_of (GetSensorReadingRsp.mk 0 7 0 (Some 0x05) (Some 0x01)))))
    = Ok (reading, Some states)
    /\ 0 <= states < 65536
    /\ Z.land states 0xff = 0x05
    /\ Z.shiftr states 8 = 0x01.
Proof.
  apply (get_sensor_reading_states_are_two_bytes
           (P := platform_of (reading_of (GetSensorReadingRsp.mk 0 7 0 (Some 0x05) (Some 0x01))))
           1 0 (boot _) (GetSensorReadingRsp.mk 0 7 0 (Some 0x05) (Some 0x01)) tt);
    try reflexivity; lia.
Defined.

Lemma get_sensor_reading_checks_completion_code_first_witness :
  let rsp := GetSensorReadingRsp.mk 0xc1 7 0 None (Some 0x01) in
  get_sensor_reading 1 0 (boot (reading_of rsp))
  = (Raise (CompletionCodeError 0xc1),
     mkState (P := platform_of (reading_of rsp)) tt None
       [Exchange (GetSensorReading (GetSensorReadingReq.mk 1 0)) (inr rsp)]).
Proof.
  intros rsp.
  apply (get_sensor_reading_checks_completion_code_first
           (P := platform_of (reading_of rsp)) 1 0 (boot _) rsp tt);
    [reflexivity|discriminate].
Defined.

(** With the readable bits of [ucr] and [lcr] set the dict has these two
    keys. *)
Lemma get_sensor_thresholds_readable_only_witness :
  let rsp := GetSensorThresholdsRsp.mk 0
               (Thresholds.mk 0 1 0 0 1 0) (Thresholds.mk 90 80 70 30 20 10) in
  exists d,
    fst (get_sensor_thresholds (T := thresholds_read_as chained rsp) 1 0 (boot chained))
    = Ok d
    /\ NoDup (keys d)
    /\ forall name : string,
        getitem d name
        = match threshold_named (GetSensorThresholdsRsp.readable_mask rsp) name,
                threshold_named (GetSensorThresholdsRsp.threshold rsp) name with
          | Some bit, Some value => if truthy bit then Some value else None
          | _, _ => None
          end.
Proof.
  intros rsp.
  apply (get_sensor_thresholds_readable_only (T := thresholds_read_as chained rsp)
           1 0 (boot chained) rsp tt); reflexivity.
Defined.

Example get_sensor_thresholds_ucr_lcr :
  fst (get_sensor_thresholds
         (T := thresholds_read_as chained
                 (GetSensorThresholdsRsp.mk 0
                    (Thresholds.mk 0 1 0 0 1 0) (Thresholds.mk 90 80 70 30 20 10)))
         1 0 (boot chained))
  = Ok [("ucr"%string, 80); ("lcr"%string, 20)].
Proof. reflexivity. Qed.

Lemma get_sensor_thresholds_reads_back_what_was_set_witness :
  let req :=
    set_sensor_thresholds_request (P := platform_of chained) 1 0
      None (Some 80) None None None (Some 5) in
  let rsp := GetSensorThresholdsRsp.mk 0
               (SetSensorThresholdsReq.set_mask req)
               (SetSensorThresholdsReq.threshold req) in
  exists d,
    fst (get_sensor_thresholds (T := thresholds_read_as chained rsp) 1 0 (boot chained))
    = Ok d
    /\ forall name : string,
        getitem d name = supplied None (Some 80) None None None (Some 5) name.
Proof.
  intros req rsp.
  apply (get_sensor_thresholds_reads_back_what_was_set
           (T := thresholds_read_as chained rsp) 1 0
           None (Some 80) None None None (Some 5) (boot chained) rsp tt);
    reflexivity.
Defined.
